(** * VaspBandUnfolding: the WAVECAR reader of [vaspwfc.py] and the G-vector
    generator of [paw.py]

    A shallow embedding of the index arithmetic, the record addressing and the
    control flow of the reconstruction routine, with the properties stated in
    the specification of the repository.

    Conventions of the embedding.
    - Python integers are [Z].  [vaspwfc.py] is Python 2 code (it uses the
      [print] statement, passes [ngrid[2]/2 + 1] as an array dimension and
      slices with [dump.shape[0] / 2]), so [/] between integers is floor
      division there; [paw.py] writes [//].
    - The cutoff test [KENERGY < encut] is evaluated over exact rationals
      ([Q]) in place of 64-bit floats.
    - The numeric kernel of the array library (complex values, norms, the
      inverse transforms) is an interface, [Numpy]; the code of the
      repository is modelled over any implementation of it. *)

From Stdlib Require Import String Strings.Byte.
From Stdlib Require Import ZArith List Bool Lia Permutation QArith.
Import ListNotations.
Open Scope Z_scope.

(** ** Python integer helpers *)

Module Py.

(** [a / b] on integers under Python 2 (classic division floors). *)
Definition classic_div (a b : Z) : Z := a / b.

(** [a // b]. *)
Definition floor_div (a b : Z) : Z := a / b.

(** [range(n)]: the integers [0 .. n-1], empty when [n <= 0]. *)
Definition range (n : Z) : list Z := map Z.of_nat (seq 0 (Z.to_nat n)).

(** [xs[i]] on a list, for a non-negative index in range (the only use in
    the generator: the index is drawn from [range(len(xs))]). *)
Definition item (xs : list Z) (i : Z) : Z := nth (Z.to_nat i) xs 0.

End Py.

(** ** Centred frequencies (vaspwfc.py 204-209, paw.py 28-33) *)

Module Freq.

(** [ii if ii < n / 2 + 1 else ii - n], as [vaspwfc.gvectors] writes it. *)
Definition centered (n ii : Z) : Z :=
  if ii <? Py.classic_div n 2 + 1 then ii else ii - n.

(** [ii if ii < n // 2 + 1 else ii - n], as [paw.gvectors] writes it. *)
Definition centered_paw (n ii : Z) : Z :=
  if ii <? Py.floor_div n 2 + 1 then ii else ii - n.

(** [[ii if ... for ii in range(n)]]: the list [fx], [fy] or [fz]. *)
Definition freqs (n : Z) : list Z := map (centered n) (Py.range n).
Definition freqs_paw (n : Z) : list Z := map (centered_paw n) (Py.range n).

(** The integers [lo, lo+1, ..., lo+len-1]. *)
Definition interval (lo : Z) (len : nat) : list Z :=
  map (fun k => lo + Z.of_nat k) (seq 0 len).

End Freq.

(** ** The G-vector generator (vaspwfc.py 194-250, paw.py 9-75) *)

Module GVec.

Definition triple : Type := Z * Z * Z.
Definition vec3 : Type := Q * Q * Q.
(** A 3x3 matrix, as its three rows. *)
Definition mat3 : Type := vec3 * vec3 * vec3.

Definition origin : triple := (0, 0, 0).
Definition neg (t : triple) : triple :=
  let '(a, b, c) := t in (- a, - b, - c).
Definition is_origin (t : triple) : bool :=
  let '(a, b, c) := t in (a =? 0) && (b =? 0) && (c =? 0).

(** The condition of the comprehension at paw.py 46-50 and
    vaspwfc.py 220-224 (gamma_half = 'z'). *)
Definition keep_half_z (t : triple) : bool :=
  let '(fx, fy, fz) := t in
  (fz >? 0) || ((fz =? 0) && (fy >? 0)) ||
  ((fz =? 0) && (fy =? 0) && (fx >=? 0)).

(** The condition of the comprehension at paw.py 56-60 (any other
    gamma_half, 'x' by default). *)
Definition keep_half_x (t : triple) : bool :=
  let '(fx, fy, fz) := t in
  (fx >? 0) || ((fx =? 0) && (fy >? 0)) ||
  ((fx =? 0) && (fy =? 0) && (fz >=? 0)).

Definition keep_all (_ : triple) : bool := true.

(** [[(fx[ii], fy[jj], fz[kk]) for kk in range(n2) for jj in range(n1)
      for ii in range(n0) if keep(...)]] *)
Definition comprehension (keep : triple -> bool)
           (fx fy fz : list Z) (ngrid : triple) : list triple :=
  let '(n0, n1, n2) := ngrid in
  flat_map (fun kk =>
    flat_map (fun jj =>
      flat_map (fun ii =>
        let t := (Py.item fx ii, Py.item fy jj, Py.item fz kk) in
        if keep t then [t] else [])
        (Py.range n0))
      (Py.range n1))
    (Py.range n2).

(** [kgrid] of paw.py 38-65: [lgam] is the flag after [force_Gamma] has
    been taken into account, [gamma_half] the string argument. *)
Definition paw_kgrid (ngrid : triple) (lgam : bool) (gamma_half : string)
  : list triple :=
  let '(n0, n1, n2) := ngrid in
  let fx := Freq.freqs_paw n0 in
  let fy := Freq.freqs_paw n1 in
  let fz := Freq.freqs_paw n2 in
  if lgam then
    if String.eqb gamma_half "z"
    then comprehension keep_half_z fx fy fz ngrid
    else comprehension keep_half_x fx fy fz ngrid
  else comprehension keep_all fx fy fz ngrid.

(** [kgrid] of vaspwfc.py 204-229. *)
Definition vaspwfc_kgrid (ngrid : triple) (lgam : bool) : list triple :=
  let '(n0, n1, n2) := ngrid in
  let fx := Freq.freqs n0 in
  let fy := Freq.freqs n1 in
  let fz := Freq.freqs n2 in
  if lgam
  then comprehension keep_half_z fx fy fz ngrid
  else comprehension keep_all fx fy fz ngrid.

(** *** The cutoff test, over exact rationals *)

Section Cutoff.

(** The constants of [vasp_constant], which is not part of the sources. *)
Variables (HSQDTM TPI : Q).
Variable Bcell : mat3.
Variable encut : Q.

Definition to_vec (t : triple) : vec3 :=
  let '(a, b, c) := t in (inject_Z a, inject_Z b, inject_Z c).

(** [kgrid + kvec[np.newaxis,:]], one row. *)
Definition add_vec (g k : vec3) : vec3 :=
  let '(g0, g1, g2) := g in
  let '(k0, k1, k2) := k in (g0 + k0, g1 + k1, g2 + k2)%Q.

(** [np.dot(v, TPI*Bcell)], one row. *)
Definition dot_TPI_Bcell (v : vec3) : vec3 :=
  let '(v0, v1, v2) := v in
  let '((b00, b01, b02), (b10, b11, b12), (b20, b21, b22)) := Bcell in
  (v0 * (TPI * b00) + v1 * (TPI * b10) + v2 * (TPI * b20),
   v0 * (TPI * b01) + v1 * (TPI * b11) + v2 * (TPI * b21),
   v0 * (TPI * b02) + v1 * (TPI * b12) + v2 * (TPI * b22))%Q.

(** [np.linalg.norm(row)**2]: the sum of the squares. *)
Definition norm_sq (v : vec3) : Q :=
  let '(x, y, z) := v in (x * x + y * y + z * z)%Q.

(** [KENERGY] of one candidate. *)
Definition KENERGY (kvec : vec3) (t : triple) : Q :=
  (HSQDTM * norm_sq (dot_TPI_Bcell (add_vec (to_vec t) kvec)))%Q.

Definition Qltb (x y : Q) : bool := negb (Qle_bool y x).

Definition below_cutoff (kvec : vec3) (t : triple) : bool :=
  Qltb (KENERGY kvec t) encut.

(** [Gvec = kgrid[np.where(KENERGY < encut)[0]]] *)
Definition select (kvec : vec3) (kgrid : list triple) : list triple :=
  filter (below_cutoff kvec) kgrid.


(** [vaspwfc.gvectors] without its two assertions (lines 201-237):
    [lgam] is [self._lgam]. *)
Definition vaspwfc_Gvec (kvec : vec3) (ngrid : triple)
           (lgam force_Gamma : bool) : list triple :=
  let lgam := if force_Gamma then true else lgam in
  select kvec (vaspwfc_kgrid ngrid lgam).

End Cutoff.

Definition k_gamma : vec3 := (0%Q, 0%Q, 0%Q).

(** A gamma-half set together with the component-wise negation of each of
    its elements other than the origin. *)
Definition completed (half : list triple) : list triple :=
  half ++ map neg (filter (fun t => negb (is_origin t)) half).

(** A unit cubic cell and rounded constants, for concrete runs. *)
Definition unit_cell : mat3 :=
  ((1%Q, 0%Q, 0%Q), (0%Q, 1%Q, 0%Q), (0%Q, 0%Q, 1%Q)).
Definition HSQDTM_approx : Q := (381 # 100)%Q.
Definition TPI_approx : Q := (6283 # 1000)%Q.

End GVec.

(** ** Exceptions, arrays and the numeric kernel of the array library *)

Module Np.

Import GVec.

Inductive exn : Type :=
| AssertionError (msg : string)
| ValueError (msg : string)
| IndexError
| IOError.

Inductive result (A : Type) : Type :=
| Ok (a : A)
| Raise (e : exn).

Arguments Ok {A} a.
Arguments Raise {A} e.

(** The two precisions [setWFPrec] accepts. *)
Inductive dtype : Type := complex64 | complex128.

Definition itemsize (d : dtype) : nat :=
  match d with complex64 => 8 | complex128 => 16 end.

(** A dense three-dimensional array: its shape and its element at each
    index (read only inside the shape). *)
Record ndarray (C : Type) : Type :=
  mk_ndarray { shape : triple; elem : triple -> C }.

Arguments mk_ndarray {C} shape elem.
Arguments shape {C} n.
Arguments elem {C} n idx.

Definition triple_eqb (s t : triple) : bool :=
  let '(a, b, c) := s in
  let '(x, y, z) := t in (a =? x) && (b =? y) && (c =? z).

Definition setitem {C : Type} (a : ndarray C) (idx : triple) (v : C)
  : ndarray C :=
  mk_ndarray (shape a) (fun j => if triple_eqb j idx then v else elem a j).

Definition map_array {C : Type} (f : C -> C) (a : ndarray C) : ndarray C :=
  mk_ndarray (shape a) (fun j => f (elem a j)).

(** Python's reading of an index on an axis of length [n]: a negative
    index counts from the end; the index is valid within [[-n, n)]. *)
Definition py_index (n i : Z) : Z := if i <? 0 then i + n else i.
Definition index_ok (n i : Z) : bool := (- n <=? i) && (i <? n).

Definition norm_idx (sh idx : triple) : triple :=
  let '(s0, s1, s2) := sh in
  let '(i, j, k) := idx in (py_index s0 i, py_index s1 j, py_index s2 k).

Definition in_bounds (sh idx : triple) : bool :=
  let '(s0, s1, s2) := sh in
  let '(i, j, k) := idx in index_ok s0 i && index_ok s1 j && index_ok s2 k.

(** [a[i, j, k]] *)
Definition getitem {C : Type} (a : ndarray C) (idx : triple) : C :=
  elem a (norm_idx (shape a) idx).

(** A value array of [k] elements is assigned to [m] indexed positions when
    [k = m], or when [k = 1] (the single value is repeated). *)
Definition broadcastable (k m : nat) : bool := (k =? m)%nat || (k =? 1)%nat.

Definition broadcast {C : Type} (vals : list C) (m : nat) : list C :=
  match vals with
  | [v] => repeat v m
  | _ => vals
  end.

(** [a[idx[:,0], idx[:,1], idx[:,2]] = vals]: the values are broadcast to
    the number of index triples, the indices checked against the shape, and
    the positions assigned in order (a repeated position keeps the last
    value). *)
Definition assign_points {C : Type} (a : ndarray C) (idx : list triple)
           (vals : list C) : result (ndarray C) :=
  if negb (broadcastable (length vals) (length idx))
  then Raise (ValueError "shape mismatch: value array could not be broadcast to indexing result")
  else if negb (forallb (in_bounds (shape a)) idx)
  then Raise IndexError
  else Ok (fold_left
             (fun acc (iv : triple * C) =>
                setitem acc (norm_idx (shape a) (fst iv)) (snd iv))
             (combine idx (broadcast vals (length idx))) a).

(** [x % n] on integer arrays: the sign of the result follows the divisor,
    and a zero divisor gives 0. *)
Definition mod_ (x n : Z) : Z := if n =? 0 then 0 else x mod n.

(** One row of [gvec % ngrid[np.newaxis,:]]. *)
Definition wrap (ngrid : triple) (g : triple) : triple :=
  let '(n0, n1, n2) := ngrid in
  let '(a, b, c) := g in (mod_ a n0, mod_ b n1, mod_ c n2).

(** [np.alltrue(a >= b)] on grids. *)
Definition all_ge (a b : triple) : bool :=
  let '(a0, a1, a2) := a in
  let '(b0, b1, b2) := b in (a0 >=? b0) && (a1 >=? b1) && (a2 >=? b2).

(** The numeric kernel: 64-bit floats [R], complex values [C], and the
    operations of the array library that the reader calls. *)
Class Numpy : Type := {
  R : Type;
  C : Type;
  (** [0.0j] *)
  czero : C;
  (** [x.conjugate()] *)
  conjugate : C -> C;
  (** [bool(x)] *)
  truth : C -> bool;
  (** [x * r] and [x / r] for a real [r] *)
  mulR : C -> R -> C;
  divR : C -> R -> C;
  (** [np.sqrt(2.)] *)
  sqrt2 : R;
  (** [np.sqrt(np.prod(ngrid))] *)
  sqrt_prod : triple -> R;
  (** [np.linalg.norm(cg)] *)
  linalg_norm : list C -> R;
  (** one item read by [np.fromfile] at the given precision, converted by
      [np.asarray(..., dtype=np.complex128)] *)
  fromfile_item : dtype -> list byte -> C;
  (** [scipy.fftpack.ifftn(a)] *)
  ifftn : ndarray C -> ndarray C;
  (** [np.fft.irfftn(a, s=ngrid)] *)
  irfftn : ndarray C -> triple -> ndarray C
}.

Definition zeros {N : Numpy} (sh : triple) : ndarray C :=
  mk_ndarray sh (fun _ => czero).

(** [a * r] on a whole array. *)
Definition scale {N : Numpy} (a : ndarray C) (r : R) : ndarray C :=
  map_array (fun x => mulR x r) a.

(** *** The state a call can change: the position of the open stream and
    the arrays of the caller that a call receives by reference *)

Definition loc : Type := nat.

Record world : Type := mk_world { pos : Z; heap : list (list triple) }.

Definition M (A : Type) : Type := world -> result A * world.

Definition ret {A : Type} (a : A) : M A := fun w => (Ok a, w).
Definition raise {A : Type} (e : exn) : M A := fun w => (Raise e, w).
Definition bind {A B : Type} (m : M A) (k : A -> M B) : M B :=
  fun w => match m w with
           | (Ok a, w') => k a w'
           | (Raise e, w') => (Raise e, w')
           end.

Definition py_assert (b : bool) (msg : string) : M unit :=
  if b then ret tt else raise (AssertionError msg).

Definition lift {A : Type} (r : result A) : M A := fun w => (r, w).

(** [f.seek(p)] *)
Definition seek (p : Z) : M unit :=
  fun w => if p <? 0 then (Raise IOError, w)
           else (Ok tt, mk_world p (heap w)).

Fixpoint chunks (sz n : nat) (bs : list byte) : list (list byte) :=
  match n with
  | O => []
  | S n' => firstn sz bs :: chunks sz n' (skipn sz bs)
  end.

(** The number of items [np.fromfile(f, dtype, count)] returns: [count]
    of them, or as many whole items as the file still holds when there are
    fewer (all of them for a negative [count]). *)
Definition items_read (content : list byte) (d : dtype) (count p : Z) : nat :=
  let avail := (length (skipn (Z.to_nat p) content) / itemsize d)%nat in
  if count <? 0 then avail else Nat.min (Z.to_nat count) avail.

Definition fromfile {N : Numpy} (content : list byte) (d : dtype) (count : Z)
  : M (list C) :=
  fun w =>
    let n := items_read content d count (pos w) in
    (Ok (map (fromfile_item d)
             (chunks (itemsize d) n (skipn (Z.to_nat (pos w)) content))),
     mk_world (pos w + Z.of_nat (n * itemsize d)) (heap w)).

(** [xs[i]] on a one-dimensional array, [0 <= i < len(xs)]. *)
Definition item1 {A : Type} (xs : list A) (i : Z) : M A :=
  if (0 <=? i) && (i <? Z.of_nat (length xs))
  then match nth_error xs (Z.to_nat i) with
       | Some x => ret x
       | None => raise IndexError
       end
  else raise IndexError.

Fixpoint update {A : Type} (xs : list A) (l : nat) (x : A) : list A :=
  match xs, l with
  | [], _ => []
  | _ :: xs', O => x :: xs'
  | y :: xs', S l' => y :: update xs' l' x
  end.

(** Reading and overwriting the array a reference denotes. *)
Definition load (l : loc) : M (list triple) :=
  fun w => match nth_error (heap w) l with
           | Some g => (Ok g, w)
           | None => (Raise (ValueError "no such array"), w)
           end.

Definition store (l : loc) (g : list triple) : M unit :=
  fun w => (Ok tt, mk_world (pos w) (update (heap w) l g)).

(** A new array of the caller. *)
Definition alloc (g : list triple) : M loc :=
  fun w => (Ok (length (heap w)), mk_world (pos w) (heap w ++ [g])).

(** A computation that leaves the arrays of the caller as they are. *)
Definition keeps_heap {A : Type} (m : M A) : Prop :=
  forall w, heap (snd (m w)) = heap w.

End Np.

Declare Scope py_scope.
Delimit Scope py_scope with py.
Notation "x <- m ;; k" := (Np.bind m (fun x => k))
  (at level 61, m at next level, right associativity) : py_scope.
Notation "m ;;; k" := (Np.bind m (fun _ => k))
  (at level 61, right associativity) : py_scope.

(** ** The class [vaspwfc] (vaspwfc.py 55-424) *)

Module Vaspwfc.

Import GVec Np.
Local Open Scope py_scope.

(** The attributes of an opened WAVECAR, after [readWFHeader] and
    [readWFBand]; [_wfc] is the content of the file. *)
Record vaspwfc : Type := mk_vaspwfc {
  _wfc : list byte;
  _lsoc : bool;
  _lgam : bool;
  _recl : Z;
  _nspin : Z;
  _WFPrec : dtype;
  _nkpts : Z;
  _nbands : Z;
  _encut : Q;
  _Bcell : mat3;
  _ngrid : triple;
  _nplws : list Z;
  _kvecs : list vec3
}.

(** What [wfc_r] returns: the list of the two spinor components, or one
    field. *)
Inductive field {N : Numpy} : Type :=
| Spinor (up down : ndarray C)
| Scalar (phi : ndarray C).

Section Methods.

Context {N : Numpy}.

(** The constants of [vasp_constant], which is not part of the sources. *)
Variables (HSQDTM TPI : Q).

Variable self : vaspwfc.

(** The indices [checkIndex] accepts. *)
Definition valid_index (ispin ikpt iband : Z) : Prop :=
  1 <= ispin <= _nspin self /\
  1 <= ikpt <= _nkpts self /\
  1 <= iband <= _nbands self.

(** The grid [wfc_r] works on, for an argument [ngrid] it accepts. *)
Definition accepted_grid (ngrid : option triple) (ng : triple) : Prop :=
  match ngrid with
  | None => ng = _ngrid self
  | Some g => ng = g /\ all_ge g (_ngrid self) = true
  end.

(** [checkIndex] (418-424) *)
Definition checkIndex (ispin ikpt iband : Z) : M unit :=
  py_assert ((1 <=? ispin) && (ispin <=? _nspin self)) "Invalid spin index!" ;;;
  py_assert ((1 <=? ikpt) && (ikpt <=? _nkpts self)) "Invalid kpoint index!" ;;;
  py_assert ((1 <=? iband) && (iband <=? _nbands self)) "Invalid band index!".

(** [whereRec] (406-416) *)
Definition whereRec (ispin ikpt iband : Z) : M Z :=
  checkIndex ispin ikpt iband ;;;
  let rec := 2 + (ispin - 1) * _nkpts self * (_nbands self + 1) +
             (ikpt - 1) * (_nbands self + 1) +
             iband in
  ret rec.

(** [cg /= np.linalg.norm(cg)] *)
Definition normalized (cg : list C) : list C :=
  map (fun x => divR x (linalg_norm cg)) cg.

(** [readBandCoeff] (388-404) *)
Definition readBandCoeff (ispin ikpt iband : Z) (norm : bool) : M (list C) :=
  checkIndex ispin ikpt iband ;;;
  rec <- whereRec ispin ikpt iband ;;
  seek (rec * _recl self) ;;;
  nplw <- item1 (_nplws self) (ikpt - 1) ;;
  dump <- fromfile (_wfc self) (_WFPrec self) nplw ;;
  let cg := dump in
  ret (if norm then normalized cg else cg).

(** [gvectors] (194-250) *)
Definition gvectors (ikpt : Z) (force_Gamma check_consistency : bool)
  : M (list triple) :=
  py_assert ((1 <=? ikpt) && (ikpt <=? _nkpts self)) "Invalid kpoint index!" ;;;
  kvec <- item1 (_kvecs self) (ikpt - 1) ;;
  let Gvec := vaspwfc_Gvec HSQDTM TPI (_Bcell self) (_encut self) kvec
                           (_ngrid self) (_lgam self) force_Gamma in
  (if check_consistency then
     nplw <- item1 (_nplws self) (ikpt - 1) ;;
     if _lsoc self
     then py_assert (Z.of_nat (length Gvec) =? Py.classic_div nplw 2)
                 "No. of planewaves not consistent for an SOC WAVECAR!"
     else py_assert (Z.of_nat (length Gvec) =? nplw)
                 "No. of planewaves not consistent!"
   else ret tt) ;;;
  ret Gvec.

(** The loop of lines 374-380 on the plane [kz = 0]; line 377 computes
    [fy] from [ii]. *)
Definition gamma_fill (ngrid : triple) (phi_k : ndarray C) : ndarray C :=
  let '(n0, n1, _) := ngrid in
  fold_left (fun phi ii =>
    fold_left (fun phi jj =>
      let fx := Freq.centered n0 ii in
      let fy := Freq.centered n1 ii in
      if (fy >? 0) || ((fy =? 0) && (fx >=? 0)) then phi
      else setitem phi (ii, jj, 0) (conjugate (getitem phi (- ii, - jj, 0))))
      (Py.range n1) phi)
    (Py.range n0) phi_k.

(** [if Cg:] on an optional array (349): [None] and the empty array are
    false, a single element has the truth value of that element, and a
    longer array has none. *)
Definition truth_value (Cg : option (list C)) : M bool :=
  match Cg with
  | None => ret false
  | Some [] => ret false
  | Some [x] => ret (truth x)
  | Some _ =>
      raise (ValueError "The truth value of an array with more than one element is ambiguous")
  end.

Definition force (Cg : option (list C)) : list C :=
  match Cg with Some cg => cg | None => [] end.

(** Lines 318-325: the grid of the transform. *)
Definition target_grid (ngrid : option triple) : M triple :=
  match ngrid with
  | None => ret (_ngrid self)
  | Some g => py_assert (all_ge g (_ngrid self)) "Minium FT grid size" ;;;
              ret g
  end.

(** Lines 347-364: spin-orbit storage; [gvec] has been wrapped. *)
Definition spinor_branch (ispin ikpt iband : Z) (gvec : list triple)
           (Cg : option (list C)) (phi_k : ndarray C) (normFac : R)
           (norm : bool) : M field :=
  b <- truth_value Cg ;;
  dump <- (if b then ret (force Cg)
           else readBandCoeff ispin ikpt iband norm) ;;
  let nplw := Z.to_nat (Py.classic_div (Z.of_nat (length dump)) 2) in
  up_k <- lift (assign_points phi_k gvec (firstn nplw dump)) ;;
  let up := scale (ifftn up_k) normFac in
  let phi_k := zeros (shape up_k) in
  down_k <- lift (assign_points phi_k gvec (skipn nplw dump)) ;;
  let down := scale (ifftn down_k) normFac in
  ret (Spinor up down).

(** Lines 366-386: full and gamma storage; [gvec] has been wrapped. *)
Definition scalar_branch (ispin ikpt iband : Z) (gvec : list triple)
           (Cg : option (list C)) (ngrid : triple) (phi_k : ndarray C)
           (normFac : R) (norm : bool) : M field :=
  cg <- match Cg with
        | Some cg => ret cg
        | None => readBandCoeff ispin ikpt iband norm
        end ;;
  phi_k <- lift (assign_points phi_k gvec cg) ;;
  if _lgam self then
    let phi_k := gamma_fill ngrid phi_k in
    let phi_k := map_array (fun x => divR x sqrt2) phi_k in
    let phi_k :=
      setitem phi_k (0, 0, 0) (mulR (getitem phi_k (0, 0, 0)) sqrt2) in
    ret (Scalar (scale (irfftn phi_k ngrid) normFac))
  else
    ret (Scalar (ifftn (scale phi_k normFac))).

(** [wfc_r] (291-386); [gvec] is a reference to an array of the caller,
    which line 345 overwrites. *)
Definition wfc_r (ispin ikpt iband : Z)
           (gvec : option loc) (Cg : option (list C))
           (ngrid : option triple) (rescale : option R) (norm : bool)
  : M field :=
  checkIndex ispin ikpt iband ;;;
  ngrid <- target_grid ngrid ;;
  let normFac := match rescale with
                 | Some r => r
                 | None => sqrt_prod ngrid
                 end in
  g <- match gvec with
       | None => gvectors ikpt false true
       | Some l => load l
       end ;;
  let phi_k := if _lgam self
               then zeros (fst (fst ngrid), snd (fst ngrid),
                           Py.classic_div (snd ngrid) 2 + 1)
               else zeros ngrid in
  let g := map (wrap ngrid) g in
  match gvec with
  | None => ret tt
  | Some l => store l g
  end ;;;
  if _lsoc self
  then spinor_branch ispin ikpt iband g Cg phi_k normFac norm
  else scalar_branch ispin ikpt iband g Cg ngrid phi_k normFac norm.

(** A caller that reads the coefficients and the G-vectors itself and hands
    both to [wfc_r]. *)
Definition read_then_reconstruct (ispin ikpt iband : Z)
           (ngrid : option triple) (rescale : option R) (norm : bool)
  : M field :=
  cg <- readBandCoeff ispin ikpt iband norm ;;
  g <- gvectors ikpt false true ;;
  l <- alloc g ;;
  wfc_r ispin ikpt iband (Some l) (Some cg) ngrid rescale norm.

End Methods.

End Vaspwfc.

(** ** An implementation of the numeric kernel and two small files *)

Module Run.

Import GVec Np Vaspwfc.

(** Gaussian integers with unit scale factors and identity transforms: an
    implementation of [Numpy] on which the control flow of a call, the
    placement on the grid and the errors can be computed. *)
#[export] Instance Gauss : Numpy := {|
  R := Z;
  C := Z * Z;
  czero := (0, 0);
  conjugate := fun x => (fst x, - snd x);
  truth := fun x => negb ((fst x =? 0) && (snd x =? 0));
  mulR := fun x r => (fst x * r, snd x * r);
  divR := fun x r => (fst x / r, snd x / r);
  sqrt2 := 1;
  sqrt_prod := fun _ => 1;
  linalg_norm := fun _ => 1;
  fromfile_item := fun _ bs => (Z.of_N (Byte.to_N (hd x00 bs)), 0);
  ifftn := fun a => a;
  irfftn := fun a _ => a
|}.

(** A spin-orbit WAVECAR with one k-point and one band: on the 3x3x3 grid
    the cutoff keeps the origin alone, and the band record (record 3) holds
    two single-precision coefficients. *)
Definition soc_wavecar : vaspwfc := {|
  _wfc := repeat x00 48 ++ repeat x01 16;
  _lsoc := true;
  _lgam := false;
  _recl := 16;
  _nspin := 1;
  _WFPrec := complex64;
  _nkpts := 1;
  _nbands := 1;
  _encut := (100 # 1)%Q;
  _Bcell := unit_cell;
  _ngrid := (3, 3, 3);
  _nplws := [2];
  _kvecs := [k_gamma]
|}.

(** A full-mode WAVECAR with one k-point and one band: on the 5x5x5 grid
    the cutoff keeps the origin and its six neighbours, and the band record
    holds seven single-precision coefficients. *)
Definition plain_wavecar : vaspwfc := {|
  _wfc := repeat x00 168 ++ repeat x01 56;
  _lsoc := false;
  _lgam := false;
  _recl := 56;
  _nspin := 1;
  _WFPrec := complex64;
  _nkpts := 1;
  _nbands := 1;
  _encut := (200 # 1)%Q;
  _Bcell := unit_cell;
  _ngrid := (5, 5, 5);
  _nplws := [7];
  _kvecs := [k_gamma]
|}.

Definition start : world := mk_world 0 [].

End Run.

(** ** Further code of the two files *)

Module Layout.

Import GVec Np Vaspwfc.
Local Open Scope py_scope.

(** Line 176 of [readWFBand]: the record that holds the plane-wave count,
    the k-vector and the band table of spin [ii] and k-point [jj] (both
    counted from 0): [rec = self.whereRec(ii+1, jj+1, 1) - 1]. *)
Definition table_record (self : vaspwfc) (ii jj : Z) : M Z :=
  rec <- whereRec self (ii + 1) (jj + 1) 1 ;;
  ret (rec - 1).

End Layout.

Module Elf.

Import GVec.

(** Lines 586-588 of [elf], gamma storage: the G-vectors followed by the
    negation of all but the first,
    [tmp = np.array([-k for k in igvec[1:]]);
     igvec = np.vstack([igvec, tmp])]. *)
Definition padded (igvec : list triple) : list triple :=
  igvec ++ map neg (tl igvec).

End Elf.

Module Vesta.

Import GVec Np Vaspwfc.

(** Real and imaginary parts and the two formats of [save2vesta]:
    ['%16.8E ' % x] and ['%5d' % n]. *)
Class Printf {N : Numpy} : Type := {
  real : C -> R;
  imag : C -> R;
  fmt_E : R -> string;
  fmt_5d : Z -> string
}.

Definition nl : string := String (Ascii.ascii_of_nat 10) EmptyString.

(** The characters [str.strip()] removes: tab, line feed, vertical tab,
    form feed, carriage return and space. *)
Definition is_space (a : Ascii.ascii) : bool :=
  let n := Ascii.nat_of_ascii a in
  ((9 <=? n) && (n <=? 13))%nat || (n =? 32)%nat.

(** [line.strip()] is the empty string. *)
Fixpoint is_blank (line : string) : bool :=
  match line with
  | EmptyString => true
  | String a rest => is_space a && is_blank rest
  end.

(** The loop of lines 19-23 (259-263 in the method): the lines are taken
    up to the first blank one. *)
Fixpoint read_head (head : string) (lines : list string) : string :=
  match lines with
  | [] => head
  | line :: rest =>
      if negb (is_blank line) then read_head (head ++ line) rest else head
  end.

Section Save.

Context {N : Numpy} {P : Printf}.

(** The loops of lines 31-37 (and 42-48): what [out.write] receives, in
    order, after what it has received already; [part] is [phi.real] or
    [phi.imag]. *)
Definition write_values (part : C -> R) (phi : ndarray C) (nx ny nz : Z)
           (out : list string) : list string :=
  snd
    (fold_left (fun st kk =>
       fold_left (fun st jj =>
         fold_left (fun (st : Z * list string) ii =>
           let nwrite := fst st + 1 in
           let out := snd st ++ [fmt_E (part (getitem phi (ii, jj, kk)))] in
           if nwrite mod 10 =? 0 then (nwrite, out ++ [nl])
           else (nwrite, out))
           (Py.range nx) st)
         (Py.range ny) st)
       (Py.range nz) (0, out)).

(** [save2vesta] (lines 10-48): [poscar] is the content of the file of
    that name, line by line, or [None] when it cannot be opened; the result
    lists the files written, each with what was written to it. *)
Definition save2vesta (phi : ndarray C) (poscar : option (list string))
           (prefix : string) (lgam lreal : bool)
  : result (list (string * list string)) :=
  let '(nx, ny, nz) := shape phi in
  match poscar with
  | None => Raise IOError
  | Some lines =>
      let head := read_head "" lines in
      let head := (head ++ nl ++ fmt_5d nx ++ fmt_5d ny ++ fmt_5d nz ++ nl)%string in
      let real_file :=
        ((prefix ++ "_r.vasp")%string, write_values real phi nx ny nz [head]) in
      if negb (lgam || lreal)
      then Ok [real_file;
               ((prefix ++ "_i.vasp")%string,
                write_values imag phi nx ny nz [head])]
      else Ok [real_file]
  end.

(** The method [vaspwfc.save2vesta] (lines 252-289). *)
Definition save2vesta_method (self : vaspwfc) (phi : ndarray C)
           (lreal : bool) (poscar : option (list string)) (prefix : string)
  : result (list (string * list string)) :=
  save2vesta phi poscar prefix (_lgam self) lreal.

(** The position [p] of the export, as an index of the field: the first
    axis runs fastest. *)
Definition cell (nx ny : Z) (p : Z) : triple :=
  (p mod nx, (p / nx) mod ny, p / (nx * ny)).

(** A sequence of formatted values with a line feed after every tenth;
    [c] values precede. *)
Fixpoint ten_per_line (c : Z) (vals : list string) : list string :=
  match vals with
  | [] => []
  | v :: vs =>
      if (c + 1) mod 10 =? 0
      then v :: nl :: ten_per_line (c + 1) vs
      else v :: ten_per_line (c + 1) vs
  end.

End Save.

End Vesta.

Module Paw.

(** [lmmax] (paw.py 228-234): [np.sum(2 * self.proj_l + 1)]. *)
Definition lmmax (proj_l : list Z) : Z :=
  fold_left Z.add (map (fun l => 2 * l + 1) proj_l) 0.

(** [lmax] (paw.py 220-226): [self.proj_l.size]. *)
Definition lmax (proj_l : list Z) : Z := Z.of_nat (length proj_l).

(** The rows that line 383 of [calc_qproj] assigns for one element: the
    slice [iL:iL+TLP1] of each projector in turn, and [iL] after the loop
    (lines 378-384, without the values assigned). *)
Definition row_slices (proj_l : list Z) : list (Z * Z) * Z :=
  fold_left (fun (st : list (Z * Z) * Z) l =>
               let iL := snd st in
               let TLP1 := 2 * l + 1 in
               (fst st ++ [(iL, iL + TLP1)], iL + TLP1))
            proj_l ([], 0).

(** [proj_l += [l] * nlproj] (line 122). *)
Definition extend_proj_l (proj_l : list Z) (l nlproj : Z) : list Z :=
  proj_l ++ repeat l (Z.to_nat nlproj).

End Paw.

(** * Properties *)

Import Py Freq GVec.

(** ** Ranges and centred frequencies *)

Lemma in_range (n i : Z) : In i (range n) <-> 0 <= i < n.
Proof.
  unfold range. rewrite in_map_iff. split.
  - intros [k [<- Hk]]. apply in_seq in Hk. lia.
  - intros Hi. exists (Z.to_nat i). split; [lia|]. apply in_seq. lia.
Qed.

Lemma range_NoDup (n : Z) : NoDup (range n).
Proof.
  unfold range. apply Finite.Injective_map_NoDup.
  - intros a b Hab. lia.
  - apply seq_NoDup.
Qed.

Lemma range_length (n : Z) : length (range n) = Z.to_nat n.
Proof. unfold range. now rewrite length_map, length_seq. Qed.

Lemma item_map_range (f : Z -> Z) (n i : Z) :
  0 <= i < n -> item (map f (range n)) i = f i.
Proof.
  intros Hi. unfold item.
  rewrite (nth_indep _ 0 (f 0)) by (rewrite length_map, range_length; lia).
  rewrite map_nth. f_equal. unfold range.
  rewrite (nth_indep _ 0 (Z.of_nat 0)) by (rewrite length_map, length_seq; lia).
  rewrite map_nth, seq_nth by lia. lia.
Qed.

Lemma in_interval (lo : Z) (len : nat) (a : Z) :
  In a (interval lo len) <-> lo <= a < lo + Z.of_nat len.
Proof.
  unfold interval. rewrite in_map_iff. split.
  - intros [k [<- Hk]]. apply in_seq in Hk. lia.
  - intros Ha. exists (Z.to_nat (a - lo)). split; [lia|]. apply in_seq. lia.
Qed.

Lemma interval_NoDup (lo : Z) (len : nat) : NoDup (interval lo len).
Proof.
  unfold interval. apply Finite.Injective_map_NoDup.
  - intros a b Hab. lia.
  - apply seq_NoDup.
Qed.

Lemma centered_inj (n i j : Z) :
  0 <= i < n -> 0 <= j < n -> centered n i = centered n j -> i = j.
Proof.
  unfold centered, Py.classic_div. intros Hi Hj.
  destruct (i <? n / 2 + 1) eqn:Ei, (j <? n / 2 + 1) eqn:Ej; lia.
Qed.

Lemma freqs_NoDup (n : Z) : NoDup (freqs n).
Proof.
  unfold freqs.
  assert (H : forall l, NoDup l -> (forall x, In x l -> 0 <= x < n) ->
                        NoDup (map (centered n) l)).
  { induction l as [|x l IH]; intros Hnd Hin; simpl; constructor.
    - intros Hx. apply in_map_iff in Hx. destruct Hx as [y [Hy Hyl]].
      inversion Hnd; subst.
      assert (y = x) by (apply (centered_inj n); auto using in_eq, in_cons).
      subst. contradiction.
    - inversion Hnd; subst. apply IH; auto using in_cons. }
  apply H; [apply range_NoDup|]. intros x Hx. now apply in_range.
Qed.

Lemma in_freqs (n a : Z) :
  0 < n -> (In a (freqs n) <-> - (n - n / 2 - 1) <= a <= n / 2).
Proof.
  intros Hn. unfold freqs. rewrite in_map_iff.
  assert (Hd : 0 <= n / 2 < n) by (split; [apply Z.div_pos; lia | apply Z.div_lt_upper_bound; lia]).
  split.
  - intros [i [<- Hi]]. apply in_range in Hi.
    unfold centered, Py.classic_div. destruct (i <? n / 2 + 1) eqn:E; lia.
  - intros Ha. destruct (Z_lt_le_dec a 0) as [Hneg|Hpos].
    + exists (a + n). split; [|apply in_range; lia].
      unfold centered, Py.classic_div. destruct (a + n <? n / 2 + 1) eqn:E; lia.
    + exists a. split; [|apply in_range; lia].
      unfold centered, Py.classic_div. destruct (a <? n / 2 + 1) eqn:E; lia.
Qed.

Lemma in_freqs_odd (n a : Z) :
  0 < n -> Z.odd n = true ->
  (In a (freqs n) <-> - ((n - 1) / 2) <= a <= (n - 1) / 2).
Proof.
  intros Hn Ho. rewrite in_freqs by assumption.
  apply Z.odd_spec in Ho. destruct Ho as [m ->].
  replace (2 * m + 1 - 1) with (m * 2) by lia. rewrite Z.div_mul by lia.
  assert ((2 * m + 1) / 2 = m) as -> by (symmetry; apply (Z.div_unique _ 2 m 1); lia).
  lia.
Qed.
Lemma freqs_paw_eq (n : Z) : freqs_paw n = freqs n.
Proof. reflexivity. Qed.

(** C6. On an axis of [n] points the generator maps the index [i] to [i] when
    [i < n/2 + 1] and to [i - n] otherwise, [n/2] being the floor quotient
    both where [vaspwfc.py] writes [/] and where [paw.py] writes [//]; for
    an odd [n] the frequencies produced are the integers from [-(n-1)/2]
    to [(n-1)/2], each once. *)
Theorem centered_frequency_convention (n : Z) :
  0 < n ->
  (forall i, 0 <= i < n ->
     centered n i = (if i <? n / 2 + 1 then i else i - n) /\
     centered_paw n i = centered n i) /\
  freqs_paw n = freqs n /\
  (Z.odd n = true ->
     NoDup (freqs n) /\
     Permutation (freqs n) (interval (- ((n - 1) / 2)) (Z.to_nat n))).
Proof.
  intros Hn. split; [|split].
  - intros i _. split; reflexivity.
  - reflexivity.
  - intros Ho. split; [apply freqs_NoDup|].
    apply NoDup_Permutation.
    + apply freqs_NoDup.
    + apply interval_NoDup.
    + intros a. rewrite in_freqs_odd, in_interval by assumption.
      apply Z.odd_spec in Ho. destruct Ho as [m ->].
      replace (2 * m + 1 - 1) with (m * 2) by lia. rewrite Z.div_mul by lia.
      lia.
Qed.

Lemma centered_frequency_convention_witness :
  0 < 5 /\
  Permutation (freqs 5) (interval (- ((5 - 1) / 2)) (Z.to_nat 5)).
Proof.
  split; [lia|].
  apply (centered_frequency_convention 5); [lia | reflexivity].
Defined.

(** ** The candidates of the generator *)


Lemma keep_half_z_spec (fx fy fz : Z) :
  keep_half_z (fx, fy, fz) = true <->
  (fz > 0 \/ (fz = 0 /\ fy > 0) \/ (fz = 0 /\ fy = 0 /\ fx >= 0)).
Proof.
  unfold keep_half_z.
  rewrite !orb_true_iff, !andb_true_iff, !Z.gtb_gt, !Z.eqb_eq, Z.geb_ge.
  tauto.
Qed.

Lemma filter_flat_map {A B : Type} (p : B -> bool) (f : A -> list B)
      (l : list A) :
  filter p (flat_map f l) = flat_map (fun x => filter p (f x)) l.
Proof.
  induction l as [|x l IH]; simpl; [reflexivity|].
  now rewrite filter_app, IH.
Qed.

(** A filtered comprehension lists the unfiltered one, filtered: the
    order of enumeration is kept. *)
Lemma comprehension_filter (keep : triple -> bool) (fx fy fz : list Z)
      (ngrid : triple) :
  comprehension keep fx fy fz ngrid =
  filter keep (comprehension keep_all fx fy fz ngrid).
Proof.
  destruct ngrid as [[n0 n1] n2]. unfold comprehension.
  rewrite filter_flat_map. apply flat_map_ext. intros kk.
  rewrite filter_flat_map. apply flat_map_ext. intros jj.
  rewrite filter_flat_map. apply flat_map_ext. intros ii.
  simpl. destruct (keep _); reflexivity.
Qed.


Lemma vaspwfc_kgrid_half (ngrid : triple) :
  vaspwfc_kgrid ngrid true = filter keep_half_z (vaspwfc_kgrid ngrid false).
Proof.
  destruct ngrid as [[n0 n1] n2]. unfold vaspwfc_kgrid.
  apply comprehension_filter.
Qed.

Lemma vaspwfc_kgrid_paw (ngrid : triple) (lgam : bool) :
  vaspwfc_kgrid ngrid lgam = paw_kgrid ngrid lgam "z".
Proof.
  destruct ngrid as [[n0 n1] n2]. unfold vaspwfc_kgrid, paw_kgrid.
  destruct lgam; reflexivity.
Qed.


(** ** The full grid: its elements, without repetition *)

Lemma in_comprehension_all (n0 n1 n2 : Z) (t : triple) :
  In t (comprehension keep_all (freqs n0) (freqs n1) (freqs n2) (n0, n1, n2))
  <-> exists ii jj kk,
      0 <= ii < n0 /\ 0 <= jj < n1 /\ 0 <= kk < n2 /\
      t = (centered n0 ii, centered n1 jj, centered n2 kk).
Proof.
  unfold comprehension, keep_all. rewrite in_flat_map. split.
  - intros [kk [Hkk H]]. apply in_flat_map in H. destruct H as [jj [Hjj H]].
    apply in_flat_map in H. destruct H as [ii [Hii H]].
    apply in_range in Hkk, Hjj, Hii.
    destruct H as [<-|[]]. exists ii, jj, kk.
    unfold freqs. rewrite !item_map_range by assumption. auto.
  - intros [ii [jj [kk [Hii [Hjj [Hkk ->]]]]]].
    exists kk. split; [now apply in_range|].
    apply in_flat_map. exists jj. split; [now apply in_range|].
    apply in_flat_map. exists ii. split; [now apply in_range|].
    left. unfold freqs. now rewrite !item_map_range by assumption.
Qed.

Lemma in_full_grid (n0 n1 n2 a b c : Z) :
  In (a, b, c)
     (comprehension keep_all (freqs n0) (freqs n1) (freqs n2) (n0, n1, n2))
  <-> In a (freqs n0) /\ In b (freqs n1) /\ In c (freqs n2).
Proof.
  rewrite in_comprehension_all. unfold freqs. rewrite !in_map_iff. split.
  - intros [ii [jj [kk [Hii [Hjj [Hkk E]]]]]]. inversion E; subst.
    repeat split; eexists; (split; [reflexivity | now apply in_range]).
  - intros [[ii [<- Hii]] [[jj [<- Hjj]] [kk [<- Hkk]]]].
    apply in_range in Hii, Hjj, Hkk. exists ii, jj, kk. auto.
Qed.

Lemma NoDup_flat_map {A B : Type} (f : A -> list B) (l : list A) :
  NoDup l ->
  (forall x, In x l -> NoDup (f x)) ->
  (forall x y b, In x l -> In y l -> In b (f x) -> In b (f y) -> x = y) ->
  NoDup (flat_map f l).
Proof.
  induction l as [|x l IH]; intros Hnd Hf Hdisj; simpl; [constructor|].
  inversion Hnd as [|? ? Hx Hl]; subst.
  apply NoDup_app.
  - apply Hf. now left.
  - apply IH; auto.
    + intros y Hy. apply Hf. now right.
    + intros y z b Hy Hz. apply Hdisj; now right.
  - intros b Hb Hb'. apply in_flat_map in Hb'. destruct Hb' as [y [Hy Hby]].
    assert (x = y) by (apply (Hdisj x y b); auto; [now left | now right]).
    subst. contradiction.
Qed.

Lemma full_grid_NoDup (n0 n1 n2 : Z) :
  NoDup (comprehension keep_all (freqs n0) (freqs n1) (freqs n2) (n0, n1, n2)).
Proof.
  unfold comprehension, keep_all, freqs.
  apply NoDup_flat_map; [apply range_NoDup | |].
  - intros kk Hkk. apply in_range in Hkk.
    apply NoDup_flat_map; [apply range_NoDup | |].
    + intros jj Hjj. apply in_range in Hjj.
      apply NoDup_flat_map; [apply range_NoDup | |].
      * intros ii _. repeat constructor. intros [].
      * intros ii ii' b Hii Hii' [<-|[]] [E|[]].
        apply in_range in Hii, Hii'.
        rewrite !item_map_range in E by assumption.
        inversion E. symmetry. now apply (centered_inj n0).
    + intros jj jj' b Hjj Hjj' Hb Hb'.
      apply in_flat_map in Hb, Hb'.
      destruct Hb as [ii [Hii [<-|[]]]]. destruct Hb' as [ii' [Hii' [E|[]]]].
      apply in_range in Hjj, Hjj', Hii, Hii'.
      rewrite !item_map_range in E by assumption.
      inversion E. symmetry. now apply (centered_inj n1).
  - intros kk kk' b Hkk Hkk' Hb Hb'.
    apply in_flat_map in Hb, Hb'.
    destruct Hb as [jj [Hjj Hb]]. destruct Hb' as [jj' [Hjj' Hb']].
    apply in_flat_map in Hb, Hb'.
    destruct Hb as [ii [Hii [<-|[]]]]. destruct Hb' as [ii' [Hii' [E|[]]]].
    apply in_range in Hkk, Hkk', Hjj, Hjj', Hii, Hii'.
    rewrite !item_map_range in E by assumption.
    inversion E. symmetry. now apply (centered_inj n2).
Qed.

(** On an odd axis the frequencies are symmetric about zero. *)
Lemma in_freqs_opp (n a : Z) :
  0 < n -> Z.odd n = true -> In a (freqs n) -> In (- a) (freqs n).
Proof.
  intros Hn Ho. rewrite !in_freqs_odd by assumption. lia.
Qed.

Lemma neg_involutive (t : triple) : neg (neg t) = t.
Proof. destruct t as [[a b] c]. unfold neg. f_equal; [f_equal|]; lia. Qed.

Lemma neg_inj (s t : triple) : neg s = neg t -> s = t.
Proof. intros E. rewrite <- (neg_involutive s), E. apply neg_involutive. Qed.

Lemma is_origin_spec (t : triple) : is_origin t = true <-> t = origin.
Proof.
  destruct t as [[a b] c]. unfold is_origin, origin.
  rewrite !andb_true_iff, !Z.eqb_eq. split.
  - intros [[-> ->] ->]. reflexivity.
  - intros E. inversion E. auto.
Qed.


Lemma keep_half_z_neg (t : triple) :
  keep_half_z (neg t) = if is_origin t then true else negb (keep_half_z t).
Proof.
  destruct t as [[a b] c].
  destruct (is_origin (a, b, c)) eqn:Eo.
  - apply is_origin_spec in Eo. inversion Eo; subst. reflexivity.
  - assert (Hno : ~ (a = 0 /\ b = 0 /\ c = 0)).
    { intros [-> [-> ->]]. discriminate. }
    destruct (keep_half_z (a, b, c)) eqn:Ek; cbn [negb].
    + apply keep_half_z_spec in Ek.
      apply not_true_is_false. change (neg (a, b, c)) with (- a, - b, - c).
      rewrite keep_half_z_spec. lia.
    + apply not_true_iff_false in Ek. rewrite keep_half_z_spec in Ek.
      change (neg (a, b, c)) with (- a, - b, - c).
      apply keep_half_z_spec. lia.
Qed.

(** ** The cutoff test at the gamma point is even *)

Lemma KENERGY_even (HSQDTM TPI : Q) (Bcell : mat3) (t : triple) :
  (KENERGY HSQDTM TPI Bcell k_gamma (neg t) ==
   KENERGY HSQDTM TPI Bcell k_gamma t)%Q.
Proof.
  destruct t as [[a b] c].
  destruct Bcell as [[[[b00 b01] b02] [[b10 b11] b12]] [[b20 b21] b22]].
  unfold KENERGY, norm_sq, dot_TPI_Bcell, add_vec, to_vec, k_gamma, neg.
  rewrite !inject_Z_opp. ring.
Qed.

Lemma below_cutoff_even (HSQDTM TPI : Q) (Bcell : mat3) (encut : Q)
      (t : triple) :
  below_cutoff HSQDTM TPI Bcell encut k_gamma (neg t) =
  below_cutoff HSQDTM TPI Bcell encut k_gamma t.
Proof.
  unfold below_cutoff, Qltb. now rewrite KENERGY_even.
Qed.

(** ** Completing a gamma-half set by negation *)

Lemma is_origin_neg (t : triple) : is_origin (neg t) = is_origin t.
Proof.
  destruct t as [[a b] c]. unfold is_origin, neg.
  destruct (Z.eqb_spec a 0), (Z.eqb_spec b 0), (Z.eqb_spec c 0);
    destruct (Z.eqb_spec (- a) 0), (Z.eqb_spec (- b) 0), (Z.eqb_spec (- c) 0);
    simpl; try reflexivity; lia.
Qed.

Section Completion.

Variable keep : triple -> bool.
Hypothesis keep_neg :
  forall t, keep (neg t) = if is_origin t then true else negb (keep t).

Variable below : triple -> bool.
Hypothesis below_even : forall t, below (neg t) = below t.

Variable K : list triple.
Hypothesis K_NoDup : NoDup K.
Hypothesis K_symmetric : forall t, In t K -> In (neg t) K.

Lemma keep_origin (t : triple) : is_origin t = true -> keep t = true.
Proof.
  intros Ho. pose proof (keep_neg t) as E. rewrite Ho in E.
  apply is_origin_spec in Ho. subst. exact E.
Qed.

Lemma completed_NoDup : NoDup (completed (filter below (filter keep K))).
Proof.
  unfold completed. apply NoDup_app.
  - now do 2 apply NoDup_filter.
  - apply Finite.Injective_map_NoDup; [exact neg_inj|].
    now do 3 apply NoDup_filter.
  - intros x Hx Hx'. apply in_map_iff in Hx'. destruct Hx' as [s [<- Hs]].
    rewrite !filter_In in Hx. rewrite !filter_In in Hs.
    destruct Hx as [[_ Hk] _]. destruct Hs as [[[_ Hks] _] Hno].
    rewrite keep_neg in Hk. destruct (is_origin s); [discriminate|].
    rewrite Hks in Hk. discriminate.
Qed.

Lemma completed_In (x : triple) :
  In x (completed (filter below (filter keep K))) <-> In x (filter below K).
Proof.
  unfold completed. rewrite in_app_iff, in_map_iff. split.
  - intros [Hx|[s [<- Hs]]].
    + rewrite !filter_In in *. tauto.
    + rewrite !filter_In in *. destruct Hs as [[[HK _] Hb] _].
      rewrite below_even. auto.
  - intros Hx. rewrite filter_In in Hx. destruct Hx as [HK Hb].
    destruct (keep x) eqn:Ek.
    + left. rewrite !filter_In. auto.
    + right. exists (neg x). split; [apply neg_involutive|].
      assert (Hno : is_origin x = false).
      { destruct (is_origin x) eqn:Eo; [|reflexivity].
        apply keep_origin in Eo. congruence. }
      rewrite !filter_In, is_origin_neg, Hno, below_even, keep_neg, Hno, Ek.
      auto.
Qed.

Lemma completed_Permutation :
  Permutation (completed (filter below (filter keep K))) (filter below K).
Proof.
  apply NoDup_Permutation.
  - exact completed_NoDup.
  - now apply NoDup_filter.
  - exact completed_In.
Qed.

End Completion.

Lemma full_grid_symmetric (n0 n1 n2 : Z) (t : triple) :
  0 < n0 -> 0 < n1 -> 0 < n2 ->
  Z.odd n0 = true -> Z.odd n1 = true -> Z.odd n2 = true ->
  In t (comprehension keep_all (freqs n0) (freqs n1) (freqs n2) (n0, n1, n2)) ->
  In (neg t)
     (comprehension keep_all (freqs n0) (freqs n1) (freqs n2) (n0, n1, n2)).
Proof.
  intros H0 H1 H2 O0 O1 O2. destruct t as [[a b] c].
  change (neg (a, b, c)) with (- a, - b, - c).
  rewrite !in_full_grid. intros [Ha [Hb Hc]].
  repeat split; now apply in_freqs_opp.
Qed.




(** ** Calls on an opened WAVECAR *)

Import Np Vaspwfc.
Local Open Scope py_scope.

Lemma bind_ok {A B : Type} (m : M A) (k : A -> M B) (w w' : world) (a : A) :
  m w = (Ok a, w') -> bind m k w = k a w'.
Proof. intros E. unfold bind. now rewrite E. Qed.

Lemma bind_raise {A B : Type} (m : M A) (k : A -> M B) (w w' : world)
      (e : exn) :
  m w = (Raise e, w') -> bind m k w = (Raise e, w').
Proof. intros E. unfold bind. now rewrite E. Qed.

Lemma between_true (lo x hi : Z) :
  lo <= x <= hi -> (lo <=? x) && (x <=? hi) = true.
Proof. intros Hx. apply andb_true_iff. split; apply Z.leb_le; lia. Qed.

Section Calls.

Context {N : Numpy}.
Variable self : vaspwfc.

Lemma record_number_pos (ispin ikpt iband : Z) :
  valid_index self ispin ikpt iband ->
  0 < 2 + (ispin - 1) * _nkpts self * (_nbands self + 1) +
      (ikpt - 1) * (_nbands self + 1) + iband.
Proof.
  intros [Hs [Hk Hb]].
  assert (0 <= (ispin - 1) * _nkpts self * (_nbands self + 1))
    by (repeat apply Z.mul_nonneg_nonneg; lia).
  assert (0 <= (ikpt - 1) * (_nbands self + 1))
    by (apply Z.mul_nonneg_nonneg; lia).
  lia.
Qed.

Lemma checkIndex_ok (ispin ikpt iband : Z) (w : world) :
  valid_index self ispin ikpt iband ->
  checkIndex self ispin ikpt iband w = (Ok tt, w).
Proof.
  intros [Hs [Hk Hb]]. unfold checkIndex, bind, py_assert.
  now rewrite !between_true by assumption.
Qed.

Lemma whereRec_ok (ispin ikpt iband : Z) (w : world) :
  valid_index self ispin ikpt iband ->
  whereRec self ispin ikpt iband w =
  (Ok (2 + (ispin - 1) * _nkpts self * (_nbands self + 1) +
       (ikpt - 1) * (_nbands self + 1) + iband), w).
Proof.
  intros Hv. unfold whereRec.
  now rewrite (bind_ok _ _ _ _ _ (checkIndex_ok _ _ _ w Hv)).
Qed.

Lemma item1_ok {A : Type} (xs : list A) (i : Z) (x : A) (w : world) :
  0 <= i -> nth_error xs (Z.to_nat i) = Some x -> item1 xs i w = (Ok x, w).
Proof.
  intros Hi E. unfold item1.
  assert (Hlt : (Z.to_nat i < length xs)%nat).
  { apply nth_error_Some. congruence. }
  replace ((0 <=? i) && (i <? Z.of_nat (length xs))) with true.
  - now rewrite E.
  - symmetry. apply andb_true_iff. split; [apply Z.leb_le | apply Z.ltb_lt]; lia.
Qed.

Lemma chunks_length (sz n : nat) (bs : list byte) :
  length (chunks sz n bs) = n.
Proof.
  revert bs. induction n as [|n IH]; intros bs; simpl; [reflexivity|].
  now rewrite IH.
Qed.

(** When the file holds [count] whole items from position [p] on,
    [np.fromfile] returns [count] of them. *)
Lemma items_read_exact (content : list byte) (d : dtype) (count p : Z) :
  0 <= count -> 0 <= p ->
  p + count * Z.of_nat (itemsize d) <= Z.of_nat (length content) ->
  items_read content d count p = Z.to_nat count.
Proof.
  intros Hc Hp Hlen. unfold items_read.
  destruct (count <? 0) eqn:E; [lia|].
  apply Nat.min_l. apply Nat.div_le_lower_bound.
  - destruct d; simpl; lia.
  - rewrite length_skipn. nia.
Qed.

(** What [readBandCoeff] returns and where it leaves the stream, for valid
    indices: the items [np.fromfile] reads from byte [rec * recl] with
    [count = nplw], divided by their norm when [norm] is set. *)
Lemma readBandCoeff_ok (ispin ikpt iband nplw : Z) (norm : bool) (w : world) :
  valid_index self ispin ikpt iband ->
  0 <= _recl self ->
  nth_error (_nplws self) (Z.to_nat (ikpt - 1)) = Some nplw ->
  let rec := 2 + (ispin - 1) * _nkpts self * (_nbands self + 1) +
             (ikpt - 1) * (_nbands self + 1) + iband in
  let n := items_read (_wfc self) (_WFPrec self) nplw (rec * _recl self) in
  let dump := map (fromfile_item (_WFPrec self))
                  (chunks (itemsize (_WFPrec self)) n
                          (skipn (Z.to_nat (rec * _recl self)) (_wfc self))) in
  readBandCoeff self ispin ikpt iband norm w =
  (Ok (if norm then normalized dump else dump),
   mk_world (rec * _recl self + Z.of_nat (n * itemsize (_WFPrec self)))
            (heap w)).
Proof.
  intros Hv Hrecl Hn rec n dump. unfold readBandCoeff.
  rewrite (bind_ok _ _ _ _ _ (checkIndex_ok _ _ _ w Hv)).
  rewrite (bind_ok _ _ _ _ _ (whereRec_ok _ _ _ w Hv)).
  fold rec.
  assert (Hrec : 0 <= rec * _recl self).
  { pose proof (record_number_pos _ _ _ Hv). subst rec. nia. }
  assert (Hseek : seek (rec * _recl self) w =
                  (Ok tt, mk_world (rec * _recl self) (heap w))).
  { unfold seek. destruct (rec * _recl self <? 0) eqn:E; [lia | reflexivity]. }
  rewrite (bind_ok _ _ _ _ _ Hseek).
  assert (Hk1 : 0 <= ikpt - 1) by (destruct Hv as [_ [Hk _]]; lia).
  rewrite (bind_ok _ _ _ _ _ (item1_ok _ _ _ _ Hk1 Hn)).
  unfold bind, fromfile, ret. simpl. reflexivity.
Qed.

End Calls.

(** C3. For spin, k-point and band indices within the declared bounds, the
    record of the band is [2 + (s-1)*K*(B+1) + (k-1)*(B+1) + b]; the reader
    seeks to that record number times the record length and asks for the
    stored plane-wave count of coefficients, and returns exactly that many
    when the file holds them. *)
Theorem band_record_offset {N : Numpy} (self : vaspwfc)
        (s k b nplw : Z) (norm : bool) (w : world) :
  1 <= s <= _nspin self ->
  1 <= k <= _nkpts self ->
  1 <= b <= _nbands self ->
  0 <= _recl self ->
  nth_error (_nplws self) (Z.to_nat (k - 1)) = Some nplw ->
  let rec := 2 + (s - 1) * _nkpts self * (_nbands self + 1) +
             (k - 1) * (_nbands self + 1) + b in
  whereRec self s k b w = (Ok rec, w) /\
  (exists dump w',
      fromfile (_wfc self) (_WFPrec self) nplw
               (mk_world (rec * _recl self) (heap w)) = (Ok dump, w') /\
      readBandCoeff self s k b norm w =
      (Ok (if norm then normalized dump else dump), w') /\
      (0 <= nplw ->
       rec * _recl self + nplw * Z.of_nat (itemsize (_WFPrec self))
       <= Z.of_nat (length (_wfc self)) ->
       length dump = Z.to_nat nplw /\
       pos w' = rec * _recl self + nplw * Z.of_nat (itemsize (_WFPrec self)))).
Proof.
  intros Hs Hk Hb Hrecl Hn rec.
  assert (Hv : valid_index self s k b) by (unfold valid_index; auto).
  split; [now apply whereRec_ok|].
  eexists. eexists. split; [reflexivity|]. split.
  - rewrite (readBandCoeff_ok self s k b nplw norm w Hv Hrecl Hn). reflexivity.
  - intros Hnp Hlen. simpl.
    assert (Hrec : 0 <= rec * _recl self).
    { pose proof (record_number_pos self _ _ _ Hv). subst rec. nia. }
    rewrite length_map, chunks_length.
    rewrite items_read_exact by assumption. split; [reflexivity|]. nia.
Qed.

Lemma band_record_offset_witness :
  whereRec Run.plain_wavecar 1 1 1 Run.start = (Ok 3, Run.start).
Proof.
  apply (band_record_offset (N := Run.Gauss) Run.plain_wavecar 1 1 1 7 true
                            Run.start); simpl; solve [lia | reflexivity].
Defined.

(** ** What a call does to the arrays of its caller *)

Lemma keeps_heap_ret {A : Type} (a : A) : keeps_heap (ret a).
Proof. intros w. reflexivity. Qed.

Lemma keeps_heap_raise {A : Type} (e : exn) : keeps_heap (@raise A e).
Proof. intros w. reflexivity. Qed.

Lemma keeps_heap_lift {A : Type} (r : result A) : keeps_heap (lift r).
Proof. intros w. reflexivity. Qed.

Lemma keeps_heap_bind {A B : Type} (m : M A) (k : A -> M B) :
  keeps_heap m -> (forall a, keeps_heap (k a)) -> keeps_heap (bind m k).
Proof.
  intros Hm Hk w. unfold bind. specialize (Hm w).
  destruct (m w) as [[a|e] w1]; simpl in *.
  - now rewrite Hk.
  - exact Hm.
Qed.

Lemma keeps_heap_assert (b : bool) (msg : string) :
  keeps_heap (py_assert b msg).
Proof. intros w. unfold py_assert. now destruct b. Qed.

Lemma keeps_heap_seek (p : Z) : keeps_heap (seek p).
Proof. intros w. unfold seek. now destruct (p <? 0). Qed.

Lemma keeps_heap_item1 {A : Type} (xs : list A) (i : Z) :
  keeps_heap (item1 xs i).
Proof.
  intros w. unfold item1.
  destruct ((0 <=? i) && (i <? Z.of_nat (length xs))); [|reflexivity].
  now destruct (nth_error xs (Z.to_nat i)).
Qed.

Lemma keeps_heap_fromfile {N : Numpy} (content : list byte) (d : dtype)
      (count : Z) : keeps_heap (fromfile content d count).
Proof. intros w. reflexivity. Qed.

Create HintDb heap.

#[local] Hint Resolve keeps_heap_ret keeps_heap_raise keeps_heap_lift
  keeps_heap_assert keeps_heap_seek keeps_heap_item1 keeps_heap_fromfile
  : heap.

Ltac keeps_heap_step :=
  first [ apply keeps_heap_bind; [|intros ?]
        | solve [auto with heap] ].

Section Frame.

Context {N : Numpy}.
Variables (HSQDTM TPI : Q).
Variable self : vaspwfc.

Lemma keeps_heap_checkIndex (s k b : Z) : keeps_heap (checkIndex self s k b).
Proof. unfold checkIndex. repeat keeps_heap_step. Qed.

Lemma keeps_heap_whereRec (s k b : Z) : keeps_heap (whereRec self s k b).
Proof.
  unfold whereRec. keeps_heap_step; [apply keeps_heap_checkIndex|].
  auto with heap.
Qed.

Lemma keeps_heap_readBandCoeff (s k b : Z) (norm : bool) :
  keeps_heap (readBandCoeff self s k b norm).
Proof.
  unfold readBandCoeff.
  keeps_heap_step; [apply keeps_heap_checkIndex|].
  keeps_heap_step; [apply keeps_heap_whereRec|].
  repeat keeps_heap_step.
Qed.

Lemma keeps_heap_truth_value (Cg : option (list C)) :
  keeps_heap (truth_value Cg).
Proof.
  unfold truth_value. destruct Cg as [[|x [|y cg]]|]; auto with heap.
Qed.

Lemma keeps_heap_spinor_branch (s k b : Z) (g : list triple)
      (Cg : option (list C)) (phi_k : ndarray C) (normFac : R) (norm : bool) :
  keeps_heap (spinor_branch self s k b g Cg phi_k normFac norm).
Proof.
  unfold spinor_branch.
  keeps_heap_step; [apply keeps_heap_truth_value|].
  keeps_heap_step.
  { destruct a; [auto with heap | apply keeps_heap_readBandCoeff]. }
  repeat keeps_heap_step.
Qed.

Lemma keeps_heap_scalar_branch (s k b : Z) (g : list triple)
      (Cg : option (list C)) (ngrid : triple) (phi_k : ndarray C)
      (normFac : R) (norm : bool) :
  keeps_heap (scalar_branch self s k b g Cg ngrid phi_k normFac norm).
Proof.
  unfold scalar_branch.
  keeps_heap_step.
  { destruct Cg; [auto with heap | apply keeps_heap_readBandCoeff]. }
  keeps_heap_step; [auto with heap|].
  destruct (_lgam self); auto with heap.
Qed.

Lemma target_grid_ok (ngrid : option triple) (ng : triple) (w : world) :
  accepted_grid self ngrid ng -> target_grid self ngrid w = (Ok ng, w).
Proof.
  unfold accepted_grid, target_grid. destruct ngrid as [g|].
  - intros [-> Hge]. unfold bind, py_assert. now rewrite Hge.
  - intros ->. reflexivity.
Qed.

(** With an array of the caller for [gvec], a call with accepted indices
    and grid ends, with a field or with an error, in a state where that
    array holds the wrapped rows. *)
Lemma wfc_r_heap (s k b : Z) (l : loc) (Cg : option (list C))
      (ngrid : option triple) (ng : triple) (rescale : option R)
      (norm : bool) (w : world) (g : list triple) :
  valid_index self s k b ->
  accepted_grid self ngrid ng ->
  nth_error (heap w) l = Some g ->
  heap (snd (wfc_r HSQDTM TPI self s k b (Some l) Cg ngrid rescale norm w)) =
  update (heap w) l (map (wrap ng) g).
Proof.
  intros Hv Hg Hl. unfold wfc_r.
  rewrite (bind_ok _ _ _ _ _ (checkIndex_ok self _ _ _ w Hv)).
  rewrite (bind_ok _ _ _ _ _ (target_grid_ok _ _ w Hg)).
  assert (Hload : load l w = (Ok g, w)) by (unfold load; now rewrite Hl).
  rewrite (bind_ok _ _ _ _ _ Hload).
  assert (Hstore : store l (map (wrap ng) g) w =
                   (Ok tt, mk_world (pos w) (update (heap w) l (map (wrap ng) g))))
    by reflexivity.
  rewrite (bind_ok _ _ _ _ _ Hstore).
  destruct (_lsoc self).
  - now rewrite keeps_heap_spinor_branch.
  - now rewrite keeps_heap_scalar_branch.
Qed.

End Frame.

Lemma nth_error_update {A : Type} (xs : list A) (l : nat) (x y : A) :
  nth_error xs l = Some y -> nth_error (update xs l x) l = Some x.
Proof.
  revert l. induction xs as [|z xs IH]; intros [|l]; simpl; try discriminate.
  - reflexivity.
  - apply IH.
Qed.

Lemma mod_range (a n : Z) : 0 < n -> 0 <= mod_ a n < n.
Proof.
  intros Hn. unfold mod_. destruct (Z.eqb_spec n 0); [lia|].
  now apply Z.mod_pos_bound.
Qed.

(** C10. When [wfc_r] is given an array of the caller as G-vectors, with
    indices and a grid it accepts, the array is overwritten in place: after
    the call every component of every row is its non-negative remainder
    modulo the corresponding dimension of the target grid, so that an array
    with a negative frequency no longer holds what the caller passed. *)
Theorem gvec_override_mutated {N : Numpy} (HSQDTM TPI : Q) (self : vaspwfc)
        (s k b : Z) (l : loc) (Cg : option (list C))
        (ngrid : option triple) (n0 n1 n2 : Z) (rescale : option R)
        (norm : bool) (w : world) (g : list triple) :
  valid_index self s k b ->
  accepted_grid self ngrid (n0, n1, n2) ->
  0 < n0 -> 0 < n1 -> 0 < n2 ->
  nth_error (heap w) l = Some g ->
  let w' := snd (wfc_r HSQDTM TPI self s k b (Some l) Cg ngrid rescale norm w) in
  nth_error (heap w') l =
  Some (map (fun t => let '(a, b, c) := t in (a mod n0, b mod n1, c mod n2)) g) /\
  (forall g' a b c, nth_error (heap w') l = Some g' -> In (a, b, c) g' ->
                    0 <= a < n0 /\ 0 <= b < n1 /\ 0 <= c < n2) /\
  ((exists a b c, In (a, b, c) g /\ (a < 0 \/ b < 0 \/ c < 0)) ->
   nth_error (heap w') l <> Some g).
Proof.
  intros Hv Hg H0 H1 H2 Hl w'.
  assert (Hw : nth_error (heap w') l = Some (map (wrap (n0, n1, n2)) g)).
  { subst w'. rewrite (wfc_r_heap HSQDTM TPI self s k b l Cg ngrid (n0, n1, n2)
                                  rescale norm w g Hv Hg Hl).
    now apply nth_error_update with (y := g). }
  assert (Hrange : forall a b c, In (a, b, c) (map (wrap (n0, n1, n2)) g) ->
                                 0 <= a < n0 /\ 0 <= b < n1 /\ 0 <= c < n2).
  { intros a b0 c Hin. apply in_map_iff in Hin.
    destruct Hin as [[[x y] z] [E _]]. unfold wrap in E. inversion E; subst.
    auto using mod_range. }
  split; [|split].
  - rewrite Hw. f_equal. apply map_ext. intros [[a b0] c]. unfold wrap, mod_.
    destruct (Z.eqb_spec n0 0), (Z.eqb_spec n1 0), (Z.eqb_spec n2 0);
      try lia; reflexivity.
  - intros g' a b0 c Hg' Hin. rewrite Hw in Hg'. inversion Hg'; subst.
    now apply Hrange.
  - intros [a [b0 [c [Hin Hneg]]]] E. rewrite Hw in E. inversion E as [E'].
    rewrite E' in Hrange. specialize (Hrange a b0 c Hin). lia.
Qed.

Lemma gvec_override_mutated_witness :
  nth_error
    (heap (snd (wfc_r (N := Run.Gauss) HSQDTM_approx TPI_approx
                      Run.plain_wavecar 1 1 1
                      (Some 0%nat) None None None true
                      (mk_world 0 [[(0, 0, 0); (-1, 0, 2)]])))) 0 =
  Some [(0, 0, 0); (4, 0, 2)].
Proof.
  apply (gvec_override_mutated (N := Run.Gauss) HSQDTM_approx TPI_approx
           Run.plain_wavecar 1 1 1 0%nat None None 5 5 5 None true
           (mk_world 0 [[(0, 0, 0); (-1, 0, 2)]]) [(0, 0, 0); (-1, 0, 2)]);
    solve [lia | reflexivity | unfold valid_index; simpl; lia].
Defined.

(** ** Placing the coefficients *)

Lemma assign_points_mismatch {C : Type} (a : ndarray C) (idx : list triple)
      (vals : list C) :
  length vals <> length idx -> length vals <> 1%nat ->
  assign_points a idx vals =
  Raise (ValueError "shape mismatch: value array could not be broadcast to indexing result").
Proof.
  intros Hm H1. unfold assign_points, broadcastable.
  destruct (Nat.eqb_spec (length vals) (length idx)); [contradiction|].
  destruct (Nat.eqb_spec (length vals) 1); [contradiction|]. reflexivity.
Qed.

(** C8, as amended. In full and gamma storage, when the coefficient vector
    handed to [wfc_r] has a length that is neither the number of G-vectors
    nor 1, the call fails with the shape-mismatch [ValueError] of the array
    library and returns no field. *)
Theorem coefficient_count_mismatch {N : Numpy} (HSQDTM TPI : Q)
        (self : vaspwfc) (s k b : Z) (gvec : option loc) (cg : list C)
        (ngrid : option triple) (ng : triple) (rescale : option R)
        (norm : bool) (w : world) (g : list triple) :
  _lsoc self = false ->
  valid_index self s k b ->
  accepted_grid self ngrid ng ->
  match gvec with
  | None => gvectors HSQDTM TPI self k false true w
  | Some l => load l w
  end = (Ok g, w) ->
  length cg <> length g ->
  length cg <> 1%nat ->
  fst (wfc_r HSQDTM TPI self s k b gvec (Some cg) ngrid rescale norm w) =
  Raise (ValueError "shape mismatch: value array could not be broadcast to indexing result").
Proof.
  intros Hsoc Hv Hg Hgv Hlen H1. unfold wfc_r.
  rewrite (bind_ok _ _ _ _ _ (checkIndex_ok self _ _ _ w Hv)).
  rewrite (bind_ok _ _ _ _ _ (target_grid_ok self _ _ w Hg)).
  assert (Hb : forall w1 phi_k nf,
             fst (scalar_branch self s k b (map (wrap ng) g) (Some cg) ng
                                phi_k nf norm w1) =
             Raise (ValueError "shape mismatch: value array could not be broadcast to indexing result")).
  { intros w1 phi_k nf. unfold scalar_branch, bind, ret, lift.
    rewrite assign_points_mismatch; [reflexivity | | assumption].
    now rewrite length_map. }
  destruct gvec as [l|]; rewrite (bind_ok _ _ _ _ _ Hgv), Hsoc;
    unfold bind, store, ret; apply Hb.
Qed.

Lemma coefficient_count_mismatch_witness :
  fst (wfc_r (N := Run.Gauss) HSQDTM_approx TPI_approx Run.plain_wavecar
             1 1 1 None (Some [(1, 0); (2, 0); (3, 0)]) None None true
             Run.start) =
  Raise (ValueError "shape mismatch: value array could not be broadcast to indexing result").
Proof.
  apply (coefficient_count_mismatch (N := Run.Gauss) HSQDTM_approx TPI_approx
           Run.plain_wavecar 1 1 1 None [(1, 0); (2, 0); (3, 0)] None
           (5, 5, 5) None true Run.start
           [(0, 0, 0); (1, 0, 0); (-1, 0, 0); (0, 1, 0); (0, -1, 0);
            (0, 0, 1); (0, 0, -1)]);
    solve [ reflexivity
          | unfold valid_index; simpl; lia
          | vm_compute; reflexivity
          | simpl; lia ].
Defined.

(** C8, as stated, fails for a vector of one coefficient: with seven
    G-vectors at the k-point, the single value is written at all seven
    positions and a field is returned. *)
Lemma single_coefficient_is_broadcast :
  exists g phi w',
    gvectors HSQDTM_approx TPI_approx Run.plain_wavecar
             1 false true Run.start = (Ok g, Run.start) /\
    length g = 7%nat /\
    wfc_r (N := Run.Gauss) HSQDTM_approx TPI_approx Run.plain_wavecar
          1 1 1 None (Some [(4, 2)]) None None true Run.start =
    (Ok (Scalar phi), w') /\
    elem phi (0, 0, 0) = (4, 2) /\ elem phi (4, 0, 0) = (4, 2) /\
    elem phi (0, 0, 4) = (4, 2).
Proof.
  do 3 eexists. split; [vm_compute; reflexivity|].
  split; [reflexivity|]. split; [vm_compute; reflexivity|].
  repeat split; vm_compute; reflexivity.
Qed.

(** ** The override in full and gamma storage *)

Section Override.

Context {N : Numpy}.
Variables (HSQDTM TPI : Q).
Variable self : vaspwfc.

Lemma checkIndex_pure (s k b : Z) :
  exists r, forall w, checkIndex self s k b w = (r, w).
Proof.
  unfold checkIndex, bind, py_assert.
  destruct ((1 <=? s) && (s <=? _nspin self));
    destruct ((1 <=? k) && (k <=? _nkpts self));
    destruct ((1 <=? b) && (b <=? _nbands self));
    eexists; intros w; reflexivity.
Qed.

Lemma target_grid_pure (ngrid : option triple) :
  exists r, forall w, target_grid self ngrid w = (r, w).
Proof.
  unfold target_grid, bind, py_assert. destruct ngrid as [g|].
  - destruct (all_ge g (_ngrid self)); eexists; intros w; reflexivity.
  - eexists; intros w; reflexivity.
Qed.

Lemma item1_pure {A : Type} (xs : list A) (i : Z) :
  exists r, forall w, item1 xs i w = (r, w).
Proof.
  unfold item1. destruct ((0 <=? i) && (i <? Z.of_nat (length xs))).
  - destruct (nth_error xs (Z.to_nat i)); eexists; intros w; reflexivity.
  - eexists; intros w; reflexivity.
Qed.

Lemma gvectors_pure (k : Z) (force_Gamma check : bool) :
  exists r, forall w, gvectors HSQDTM TPI self k force_Gamma check w = (r, w).
Proof.
  unfold gvectors, bind, py_assert.
  destruct ((1 <=? k) && (k <=? _nkpts self));
    [|eexists; intros w; reflexivity].
  destruct (item1_pure (_kvecs self) (k - 1)) as [[kvec|e] Hk];
    [|exists (Raise e); intros w; unfold ret; now rewrite Hk].
  destruct check.
  - destruct (item1_pure (_nplws self) (k - 1)) as [[nplw|e] Hn].
    + destruct (_lsoc self).
      * destruct (Z.of_nat
                    (length (vaspwfc_Gvec HSQDTM TPI (_Bcell self) (_encut self)
                                          kvec (_ngrid self) (_lgam self)
                                          force_Gamma))
                  =? Py.classic_div nplw 2) eqn:E;
          eexists; intros w; unfold ret; rewrite Hk, Hn, E; reflexivity.
      * destruct (Z.of_nat
                    (length (vaspwfc_Gvec HSQDTM TPI (_Bcell self) (_encut self)
                                          kvec (_ngrid self) (_lgam self)
                                          force_Gamma))
                  =? nplw) eqn:E;
          eexists; intros w; unfold ret; rewrite Hk, Hn, E; reflexivity.
    + exists (Raise e). intros w. unfold ret. now rewrite Hk, Hn.
  - eexists. intros w. unfold ret. rewrite Hk. reflexivity.
Qed.

Lemma readBandCoeff_needs_index (s k b : Z) (norm : bool) (w w1 : world)
      (cg : list C) :
  readBandCoeff self s k b norm w = (Ok cg, w1) ->
  forall w', checkIndex self s k b w' = (Ok tt, w').
Proof.
  intros E w'. destruct (checkIndex_pure s k b) as [[[]|e] Hr]; [apply Hr|].
  unfold readBandCoeff, bind in E. rewrite Hr in E. discriminate.
Qed.

Lemma alloc_ok (g : list triple) (w : world) :
  alloc g w = (Ok (length (heap w)), mk_world (pos w) (heap w ++ [g])).
Proof. reflexivity. Qed.

Lemma load_alloc (g : list triple) (w : world) :
  load (length (heap w)) (mk_world (pos w) (heap w ++ [g])) =
  (Ok g, mk_world (pos w) (heap w ++ [g])).
Proof.
  unfold load. simpl. rewrite nth_error_app2 by lia.
  now rewrite Nat.sub_diag.
Qed.

(** In full and gamma storage, [wfc_r] given the coefficients and the
    G-vectors that the reader returns yields the field that [wfc_r] yields
    without them. *)
Lemma override_equivalent_scalar (s k b : Z) (ngrid : option triple)
      (rescale : option R) (norm : bool) (w : world) (out : field) :
  _lsoc self = false ->
  fst (wfc_r HSQDTM TPI self s k b None None ngrid rescale norm w) = Ok out
  <->
  fst (read_then_reconstruct HSQDTM TPI self s k b ngrid rescale norm w)
  = Ok out.
Proof.
  intros Hsoc. unfold read_then_reconstruct, wfc_r.
  destruct (readBandCoeff self s k b norm w) as [[cg|e] w1] eqn:Hrc.
  - pose proof (readBandCoeff_needs_index _ _ _ _ _ _ _ Hrc) as Hi.
    rewrite (bind_ok _ _ _ _ _ (Hi w)).
    rewrite (bind_ok _ _ _ _ _ Hrc).
    destruct (target_grid_pure ngrid) as [[ng|e] Ht].
    + rewrite (bind_ok _ _ _ _ _ (Ht w)).
      destruct (gvectors_pure k false true) as [[g|e] Hg].
      * rewrite (bind_ok _ _ _ _ _ (Hg w)), (bind_ok _ _ _ _ _ (Hg w1)).
        rewrite (bind_ok _ _ _ _ _ (alloc_ok g w1)).
        rewrite (bind_ok _ _ _ _ _ (Hi _)), (bind_ok _ _ _ _ _ (Ht _)).
        rewrite (bind_ok _ _ _ _ _ (load_alloc g w1)).
        rewrite Hsoc. unfold scalar_branch, bind, store, ret, lift.
        rewrite Hrc.
        destruct (assign_points _ (map (wrap ng) g) cg); simpl;
          [destruct (_lgam self)|]; reflexivity.
      * rewrite (bind_raise _ _ _ _ _ (Hg w)), (bind_raise _ _ _ _ _ (Hg w1)).
        simpl. split; discriminate.
    + rewrite (bind_raise _ _ _ _ _ (Ht w)). simpl.
      destruct (gvectors_pure k false true) as [[g|e'] Hg].
      * rewrite (bind_ok _ _ _ _ _ (Hg w1)).
        rewrite (bind_ok _ _ _ _ _ (alloc_ok g w1)).
        rewrite (bind_ok _ _ _ _ _ (Hi _)), (bind_raise _ _ _ _ _ (Ht _)).
        simpl. split; discriminate.
      * rewrite (bind_raise _ _ _ _ _ (Hg w1)). simpl. split; discriminate.
  - rewrite (bind_raise _ _ _ _ _ Hrc). simpl.
    split; [|discriminate]. intros E. exfalso. revert E.
    destruct (checkIndex_pure s k b) as [[[]|e1] Hi];
      [|rewrite (bind_raise _ _ _ _ _ (Hi w)); discriminate].
    rewrite (bind_ok _ _ _ _ _ (Hi w)).
    destruct (target_grid_pure ngrid) as [[ng|e1] Ht];
      [|rewrite (bind_raise _ _ _ _ _ (Ht w)); discriminate].
    rewrite (bind_ok _ _ _ _ _ (Ht w)).
    destruct (gvectors_pure k false true) as [[g|e1] Hg];
      [|rewrite (bind_raise _ _ _ _ _ (Hg w)); discriminate].
    rewrite (bind_ok _ _ _ _ _ (Hg w)).
    rewrite Hsoc. unfold scalar_branch, bind, ret. rewrite Hrc. discriminate.
Qed.

End Override.

(** ** The override in spin-orbit storage *)

(** In spin-orbit storage line 349 takes the truth value of the array
    [Cg]: with two coefficients or more the call raises. *)
Lemma spinor_override_raises {N : Numpy} (HSQDTM TPI : Q) (self : vaspwfc)
      (s k b : Z) (l : loc) (x y : C) (cg : list C)
      (ngrid : option triple) (ng : triple) (rescale : option R)
      (norm : bool) (w : world) (g : list triple) :
  _lsoc self = true ->
  valid_index self s k b ->
  accepted_grid self ngrid ng ->
  nth_error (heap w) l = Some g ->
  fst (wfc_r HSQDTM TPI self s k b (Some l) (Some (x :: y :: cg)) ngrid
             rescale norm w) =
  Raise (ValueError "The truth value of an array with more than one element is ambiguous").
Proof.
  intros Hsoc Hv Hg Hl. unfold wfc_r.
  rewrite (bind_ok _ _ _ _ _ (checkIndex_ok self _ _ _ w Hv)).
  rewrite (bind_ok _ _ _ _ _ (target_grid_ok self _ _ w Hg)).
  assert (Hload : load l w = (Ok g, w)) by (unfold load; now rewrite Hl).
  rewrite (bind_ok _ _ _ _ _ Hload).
  rewrite Hsoc. reflexivity.
Qed.

(** C7 on the spin-orbit file: the call without override returns the two
    spinor components, and the same call given the coefficients and the
    G-vectors the reader returns raises [ValueError]. *)
Theorem soc_override_diverges :
  (exists up down w',
      wfc_r (N := Run.Gauss) HSQDTM_approx TPI_approx Run.soc_wavecar
            1 1 1 None None None None true Run.start =
      (Ok (Spinor up down), w')) /\
  (exists cg w',
      readBandCoeff (N := Run.Gauss) Run.soc_wavecar 1 1 1 true Run.start =
      (Ok cg, w') /\ length cg = 2%nat) /\
  fst (read_then_reconstruct (N := Run.Gauss) HSQDTM_approx TPI_approx
                             Run.soc_wavecar 1 1 1 None None true Run.start) =
  Raise (ValueError "The truth value of an array with more than one element is ambiguous").
Proof.
  split; [|split].
  - do 3 eexists. vm_compute. reflexivity.
  - do 2 eexists. split; vm_compute; reflexivity.
  - vm_compute. reflexivity.
Qed.

(** ** The completion loop of gamma storage *)

(** C2 on a 3x3 plane. The position (2,1) has the frequencies (-1,1), which
    satisfy the condition of the generator, and the loop overwrites it with
    the conjugate of the value at (1,2); the position (1,2) has the
    frequencies (1,-1), which do not satisfy it, and the loop leaves it as
    it was. *)
Theorem gamma_fill_takes_fy_from_row {N : Numpy} (f : triple -> C) :
  let phi_k := mk_ndarray (3, 3, 2) f in
  keep_half_z (centered 3 2, centered 3 1, 0) = true /\
  elem (gamma_fill (3, 3, 3) phi_k) (2, 1, 0) = conjugate (f (1, 2, 0)) /\
  keep_half_z (centered 3 1, centered 3 2, 0) = false /\
  elem (gamma_fill (3, 3, 3) phi_k) (1, 2, 0) = f (1, 2, 0).
Proof.
  intros phi_k. repeat split; reflexivity.
Qed.

(** The coefficient of the G-vector (-1,1,0), stored at (2,1,0), is lost. *)
Lemma gamma_fill_loses_a_coefficient :
  let phi_k := setitem (zeros (N := Run.Gauss) (3, 3, 2)) (2, 1, 0) (5, 7) in
  elem phi_k (2, 1, 0) = (5, 7) /\
  elem (gamma_fill (3, 3, 3) phi_k) (2, 1, 0) = (0, 0) /\
  elem (gamma_fill (3, 3, 3) phi_k) (1, 2, 0) = (0, 0).
Proof.
  repeat split; vm_compute; reflexivity.
Qed.

(** After the loop (lines 381-383): every amplitude is divided by
    [sqrt(2.)], the origin is then multiplied by [sqrt(2.)], and the
    half-complex inverse transform on the target grid is scaled by the
    normalization factor. *)
Lemma gamma_branch_result {N : Numpy} (self : vaspwfc) (s k b : Z)
      (g : list triple) (cg : list C) (ngrid : triple)
      (phi_k phi : ndarray C) (normFac : R) (norm : bool) (w : world) :
  _lgam self = true ->
  assign_points phi_k g cg = Ok phi ->
  exists phi',
    scalar_branch self s k b g (Some cg) ngrid phi_k normFac norm w =
    (Ok (Scalar (scale (irfftn phi' ngrid) normFac)), w) /\
    shape phi' = shape phi /\
    forall idx,
      elem phi' idx =
      if triple_eqb idx (0, 0, 0)
      then mulR (divR (elem (gamma_fill ngrid phi) (0, 0, 0)) sqrt2) sqrt2
      else divR (elem (gamma_fill ngrid phi) idx) sqrt2.
Proof.
  intros Hgam Ha. eexists. split; [|split].
  - unfold scalar_branch, bind, ret, lift. rewrite Ha, Hgam. reflexivity.
  - simpl. destruct ngrid as [[n0 n1] n2]. unfold gamma_fill.
    assert (Hs : forall l (f : ndarray C -> Z -> ndarray C) a,
               (forall a i, shape (f a i) = shape a) ->
               shape (fold_left f l a) = shape a).
    { induction l as [|i l IH]; intros f a Hf; simpl; [reflexivity|].
      now rewrite IH, Hf. }
    apply Hs. intros a ii. apply Hs. intros a' jj.
    destruct (_ || _); reflexivity.
  - intros idx. simpl. destruct (triple_eqb idx (0, 0, 0)); [|reflexivity].
    unfold getitem. simpl.
    destruct (shape (gamma_fill ngrid phi)) as [[s0 s1] s2]. reflexivity.
Qed.

(** * Further properties of the code *)

(** ** The layout of the records *)

Lemma mixed_radix_unique (m q r q' r' : Z) :
  0 <= r < m -> 0 <= r' < m -> q * m + r = q' * m + r' -> q = q' /\ r = r'.
Proof.
  intros Hr Hr' E.
  assert (q = q') by nia. subst. split; [reflexivity | lia].
Qed.

Lemma record_number_eq (K B s k b : Z) :
  2 + (s - 1) * K * (B + 1) + (k - 1) * (B + 1) + b =
  ((s - 1) * K + (k - 1)) * (B + 1) + b + 2.
Proof. ring. Qed.

(** X1. Distinct states have distinct records: for indices within the
    declared bounds, [whereRec] determines the spin, the k-point and the
    band. *)
Theorem whereRec_injective (self : vaspwfc) (s k b s' k' b' : Z)
        (w w' : world) :
  valid_index self s k b ->
  valid_index self s' k' b' ->
  fst (whereRec self s k b w) = fst (whereRec self s' k' b' w') ->
  s = s' /\ k = k' /\ b = b'.
Proof.
  intros Hv Hv' E.
  rewrite (whereRec_ok self _ _ _ w Hv), (whereRec_ok self _ _ _ w' Hv') in E.
  rewrite !record_number_eq in E. cbn [fst] in E.
  assert (E' : ((s - 1) * _nkpts self + (k - 1)) * (_nbands self + 1) + b =
               ((s' - 1) * _nkpts self + (k' - 1)) * (_nbands self + 1) + b').
  { assert (Hinj : forall x y : Z, Ok x = Ok y -> x = y) by congruence.
    apply Hinj in E. lia. }
  destruct Hv as [Hs [Hk Hb]]. destruct Hv' as [Hs' [Hk' Hb']].
  destruct (mixed_radix_unique (_nbands self + 1)
              ((s - 1) * _nkpts self + (k - 1)) b
              ((s' - 1) * _nkpts self + (k' - 1)) b') as [Eu Eb]; try lia.
  destruct (mixed_radix_unique (_nkpts self) (s - 1) (k - 1) (s' - 1) (k' - 1))
    as [Es Ek]; try lia.
Qed.

Lemma whereRec_injective_witness :
  (1 = 1 /\ 1 = 1 /\ 1 = 1).
Proof.
  apply (whereRec_injective Run.plain_wavecar 1 1 1 1 1 1 Run.start Run.start);
    solve [unfold valid_index; simpl; lia | reflexivity].
Defined.

(** X2. The records of the bands lie between record 3 and record
    [1 + S*K*(B+1)], and the record of a band table (line 176) is the one
    just before the first band of its k-point and is never the record of a
    band. *)
Theorem record_layout (self : vaspwfc) (s k b s' k' : Z) (w w' : world) :
  valid_index self s k b ->
  valid_index self s' k' 1 ->
  exists rec tab,
    whereRec self s k b w = (Ok rec, w) /\
    Layout.table_record self (s' - 1) (k' - 1) w' = (Ok tab, w') /\
    3 <= rec <= 1 + _nspin self * _nkpts self * (_nbands self + 1) /\
    2 <= tab /\
    tab <> rec /\
    (s = s' -> k = k' -> rec = tab + b).
Proof.
  intros Hv Hv'. do 2 eexists. split; [now apply whereRec_ok|]. split.
  { unfold Layout.table_record.
    replace (s' - 1 + 1) with s' by lia. replace (k' - 1 + 1) with k' by lia.
    rewrite (bind_ok _ _ _ _ _ (whereRec_ok self _ _ _ w' Hv')). reflexivity. }
  destruct Hv as [Hs [Hk Hb]]. destruct Hv' as [Hs' [Hk' _]].
  rewrite !record_number_eq.
  set (B1 := _nbands self + 1).
  set (u := (s - 1) * _nkpts self + (k - 1)).
  set (u' := (s' - 1) * _nkpts self + (k' - 1)).
  assert (Hu : 0 <= u <= _nspin self * _nkpts self - 1) by (subst u; nia).
  assert (Hu' : 0 <= u') by (subst u'; nia).
  assert (HB : 2 <= B1) by (subst B1; lia).
  repeat split.
  - nia.
  - replace (_nspin self * _nkpts self * B1)
      with ((_nspin self * _nkpts self - 1) * B1 + B1) by ring.
    assert (u * B1 <= (_nspin self * _nkpts self - 1) * B1) by nia.
    subst B1. lia.
  - nia.
  - intros E.
    destruct (mixed_radix_unique B1 u' 0 u b) as [_ E0]; subst B1; lia.
  - intros -> ->. subst u u'. lia.
Qed.

Lemma record_layout_witness :
  exists rec tab,
    whereRec Run.plain_wavecar 1 1 1 Run.start = (Ok rec, Run.start) /\
    Layout.table_record Run.plain_wavecar (1 - 1) (1 - 1) Run.start =
    (Ok tab, Run.start) /\
    3 <= rec <= 1 + 1 * 1 * (1 + 1) /\ 2 <= tab /\ tab <> rec /\
    (1 = 1 -> 1 = 1 -> rec = tab + 1).
Proof.
  apply (record_layout Run.plain_wavecar 1 1 1 1 1 Run.start Run.start);
    unfold valid_index; simpl; lia.
Defined.

(** ** The enumeration of the candidates *)

Lemma flat_map_length_const {A B : Type} (f : A -> list B) (c : nat)
      (l : list A) :
  (forall x, length (f x) = c) -> length (flat_map f l) = (length l * c)%nat.
Proof.
  intros Hc. induction l as [|x l IH]; simpl; [reflexivity|].
  now rewrite length_app, IH, Hc.
Qed.

Lemma nth_error_flat_map_const {A B : Type} (f : A -> list B) (c : nat)
      (l : list A) (i j : nat) (x : A) :
  (forall x, length (f x) = c) ->
  nth_error l i = Some x -> (j < c)%nat ->
  nth_error (flat_map f l) (i * c + j) = nth_error (f x) j.
Proof.
  intros Hc. revert i. induction l as [|y l IH]; intros i Hi Hj.
  - destruct i; discriminate.
  - destruct i as [|i]; simpl in *.
    + inversion Hi; subst. rewrite nth_error_app1 by (rewrite Hc; lia).
      reflexivity.
    + rewrite nth_error_app2 by (rewrite Hc; lia).
      rewrite Hc. replace (c + i * c + j - c)%nat with (i * c + j)%nat by lia.
      now apply IH.
Qed.

Lemma nth_error_range (n i : Z) :
  0 <= i < n -> nth_error (range n) (Z.to_nat i) = Some i.
Proof.
  intros Hi. unfold range. rewrite nth_error_map.
  rewrite nth_error_nth' with (d := O) by (rewrite length_seq; lia).
  rewrite seq_nth by lia. simpl. f_equal. lia.
Qed.

(** X3. In full mode the generator lists [n0*n1*n2] candidates, and the
    candidate at position [ii + n0*(jj + n1*kk)] is the triple of the
    frequencies of [ii], [jj] and [kk]: x runs fastest, z slowest. *)
Theorem full_grid_enumeration (n0 n1 n2 ii jj kk : Z) :
  0 <= ii < n0 -> 0 <= jj < n1 -> 0 <= kk < n2 ->
  length (vaspwfc_kgrid (n0, n1, n2) false) = Z.to_nat (n0 * n1 * n2) /\
  paw_kgrid (n0, n1, n2) false "x" = vaspwfc_kgrid (n0, n1, n2) false /\
  nth_error (vaspwfc_kgrid (n0, n1, n2) false)
            (Z.to_nat (ii + n0 * (jj + n1 * kk))) =
  Some (centered n0 ii, centered n1 jj, centered n2 kk).
Proof.
  intros Hi Hj Hk. unfold vaspwfc_kgrid, paw_kgrid, comprehension, keep_all.
  set (h := fun kk jj ii : Z =>
              [(item (freqs n0) ii, item (freqs n1) jj, item (freqs n2) kk)]).
  set (gj := fun kk jj => flat_map (h kk jj) (range n0)).
  set (fk := fun kk => flat_map (gj kk) (range n1)).
  assert (Hh : forall kk jj ii, length (h kk jj ii) = 1%nat) by reflexivity.
  assert (Hg : forall kk jj, length (gj kk jj) = Z.to_nat n0).
  { intros. unfold gj.
    rewrite (flat_map_length_const _ 1) by apply Hh. rewrite range_length. lia. }
  assert (Hf : forall kk, length (fk kk) = (Z.to_nat n1 * Z.to_nat n0)%nat).
  { intros. unfold fk.
    rewrite (flat_map_length_const _ (Z.to_nat n0)) by apply Hg.
    now rewrite range_length. }
  split; [|split].
  - change (length (flat_map fk (range n2)) = Z.to_nat (n0 * n1 * n2)).
    rewrite (flat_map_length_const _ _ _ Hf), range_length.
    rewrite (Z2Nat.inj_mul (n0 * n1) n2), (Z2Nat.inj_mul n0 n1) by nia. nia.
  - reflexivity.
  - change (nth_error (flat_map fk (range n2))
                      (Z.to_nat (ii + n0 * (jj + n1 * kk))) =
            Some (centered n0 ii, centered n1 jj, centered n2 kk)).
    replace (Z.to_nat (ii + n0 * (jj + n1 * kk)))
      with (Z.to_nat kk * (Z.to_nat n1 * Z.to_nat n0)
            + (Z.to_nat jj * Z.to_nat n0 + Z.to_nat ii))%nat by nia.
    rewrite (nth_error_flat_map_const fk _ _ _ _ kk Hf (nth_error_range _ _ Hk))
      by nia.
    unfold fk.
    rewrite (nth_error_flat_map_const (gj kk) _ _ _ _ jj (Hg kk)
                                      (nth_error_range _ _ Hj)) by lia.
    unfold gj.
    replace (Z.to_nat ii) with (Z.to_nat ii * 1 + 0)%nat by lia.
    rewrite (nth_error_flat_map_const (h kk jj) _ _ _ _ ii (Hh kk jj)
                                      (nth_error_range _ _ Hi)) by lia.
    unfold h, freqs. simpl. now rewrite !item_map_range by assumption.
Qed.

Lemma full_grid_enumeration_witness :
  nth_error (vaspwfc_kgrid (3, 3, 3) false)
            (Z.to_nat (2 + 3 * (1 + 3 * 0))) =
  Some (centered 3 2, centered 3 1, centered 3 0).
Proof.
  apply (full_grid_enumeration 3 3 3 2 1 0); lia.
Defined.

(** ** From a G-vector to its position on the grid *)

Lemma mod_small_grid (n m a b : Z) :
  0 < n <= m ->
  - (n - n / 2 - 1) <= a <= n / 2 ->
  - (n - n / 2 - 1) <= b <= n / 2 ->
  mod_ a m = mod_ b m -> a = b.
Proof.
  intros Hn Ha Hb. unfold mod_. destruct (Z.eqb_spec m 0); [lia|].
  intros E.
  assert (Hd : 0 <= n / 2 < n)
    by (split; [apply Z.div_pos; lia | apply Z.div_lt_upper_bound; lia]).
  pose proof (Z.div_mod a m n0) as Da. pose proof (Z.div_mod b m n0) as Db.
  assert (a - b = m * (a / m - b / m)) by lia.
  assert (a / m - b / m = 0) by nia. lia.
Qed.

Lemma mod_centered (n i : Z) : 0 <= i < n -> mod_ (centered n i) n = i.
Proof.
  intros Hi. unfold mod_, centered, classic_div.
  destruct (Z.eqb_spec n 0); [lia|].
  destruct (i <? n / 2 + 1).
  - now apply Z.mod_small.
  - replace (i - n) with (i + (-1) * n) by lia.
    rewrite Z.mod_add by lia. now apply Z.mod_small.
Qed.

Lemma in_vaspwfc_kgrid (n0 n1 n2 : Z) (lgam : bool) (a b c : Z) :
  In (a, b, c) (vaspwfc_kgrid (n0, n1, n2) lgam) ->
  In a (freqs n0) /\ In b (freqs n1) /\ In c (freqs n2) /\
  (lgam = true -> keep_half_z (a, b, c) = true).
Proof.
  destruct lgam.
  - rewrite vaspwfc_kgrid_half, filter_In.
    intros [H Hk]. apply in_full_grid in H. tauto.
  - intros H. apply in_full_grid in H.
    repeat split; try tauto. discriminate.
Qed.

Lemma vaspwfc_kgrid_NoDup (ngrid : triple) (lgam : bool) :
  NoDup (vaspwfc_kgrid ngrid lgam).
Proof.
  destruct ngrid as [[n0 n1] n2]. destruct lgam.
  - rewrite vaspwfc_kgrid_half. apply NoDup_filter. apply full_grid_NoDup.
  - apply full_grid_NoDup.
Qed.

Lemma wrap_inj_on_grid (n0 n1 n2 m0 m1 m2 : Z) (lgam : bool) (s t : triple) :
  0 < n0 <= m0 -> 0 < n1 <= m1 -> 0 < n2 <= m2 ->
  In s (vaspwfc_kgrid (n0, n1, n2) lgam) ->
  In t (vaspwfc_kgrid (n0, n1, n2) lgam) ->
  wrap (m0, m1, m2) s = wrap (m0, m1, m2) t -> s = t.
Proof.
  intros H0 H1 H2 Hs Ht E.
  destruct s as [[a b] c]. destruct t as [[a' b'] c'].
  apply in_vaspwfc_kgrid in Hs, Ht.
  destruct Hs as [Ha [Hb [Hc _]]]. destruct Ht as [Ha' [Hb' [Hc' _]]].
  rewrite in_freqs in Ha, Hb, Hc, Ha', Hb', Hc' by lia.
  unfold wrap in E. inversion E as [[E0 E1 E2]].
  rewrite (mod_small_grid n0 m0 a a'), (mod_small_grid n1 m1 b b'),
    (mod_small_grid n2 m2 c c') by assumption.
  reflexivity.
Qed.

Lemma Gvec_wrap_NoDup (HSQDTM TPI : Q) (Bcell : mat3) (encut : Q)
      (kvec : vec3) (n0 n1 n2 m0 m1 m2 : Z) (lgam force_Gamma : bool) :
  0 < n0 <= m0 -> 0 < n1 <= m1 -> 0 < n2 <= m2 ->
  NoDup (map (wrap (m0, m1, m2))
             (vaspwfc_Gvec HSQDTM TPI Bcell encut kvec (n0, n1, n2)
                           lgam force_Gamma)).
Proof.
  intros H0 H1 H2. unfold vaspwfc_Gvec, select.
  apply Finite.Injective_map_NoDup_in.
  - intros s t Hs Ht. rewrite filter_In in Hs, Ht.
    apply (wrap_inj_on_grid n0 n1 n2 m0 m1 m2
             (if force_Gamma then true else lgam)); tauto.
  - apply NoDup_filter. apply vaspwfc_kgrid_NoDup.
Qed.

Lemma mod_range_small (a m : Z) : 0 <= a < m -> mod_ a m = a.
Proof.
  intros Ha. unfold mod_. destruct (Z.eqb_spec m 0); [lia|].
  now apply Z.mod_small.
Qed.

Lemma index_ok_range (s i : Z) : 0 <= i < s -> index_ok s i = true.
Proof.
  intros Hi. unfold index_ok. apply andb_true_iff.
  split; [apply Z.leb_le | apply Z.ltb_lt]; lia.
Qed.

Lemma Gvec_wrap_in_bounds (HSQDTM TPI : Q) (Bcell : mat3)
        (encut : Q) (kvec : vec3) (n0 n1 n2 m0 m1 m2 : Z) (lgam : bool) :
  0 < n0 <= m0 -> 0 < n1 <= m1 -> 0 < n2 <= m2 ->
  forallb (in_bounds (if lgam then (m0, m1, classic_div m2 2 + 1)
                      else (m0, m1, m2)))
          (map (wrap (m0, m1, m2))
               (vaspwfc_Gvec HSQDTM TPI Bcell encut kvec (n0, n1, n2)
                             lgam false)) = true.
Proof.
  intros H0 H1 H2. apply forallb_forall. intros x Hx.
  apply in_map_iff in Hx. destruct Hx as [[[a b] c] [<- Ht]].
  unfold vaspwfc_Gvec, select in Ht. apply filter_In in Ht.
  destruct Ht as [Ht _]. apply in_vaspwfc_kgrid in Ht.
  destruct Ht as [Ha [Hb [Hc Hk]]].
  rewrite in_freqs in Ha, Hb, Hc by lia.
  pose proof (mod_range a m0) as Ra. pose proof (mod_range b m1) as Rb.
  pose proof (mod_range c m2) as Rc.
  unfold wrap. destruct lgam; unfold in_bounds.
  - specialize (Hk eq_refl). apply keep_half_z_spec in Hk.
    assert (Hd : 0 <= n2 / 2 < n2)
      by (split; [apply Z.div_pos; lia | apply Z.div_lt_upper_bound; lia]).
    assert (Hm : n2 / 2 <= m2 / 2) by (apply Z.div_le_mono; lia).
    rewrite (mod_range_small c m2) by lia.
    rewrite !index_ok_range; [reflexivity | unfold classic_div; lia | lia | lia].
  - rewrite !index_ok_range; [reflexivity | lia | lia | lia].
Qed.

(** X4. On a target grid at least as large as the grid of the generator,
    the wrapped G-vectors of a k-point are distinct positions of the array
    [wfc_r] allocates (the whole grid in full mode, the grid with
    [ngrid[2]/2 + 1] planes in gamma mode); on the generator's own grid the
    wrapped frequencies of an index triple are that triple. *)
Theorem wrapped_positions (HSQDTM TPI : Q) (Bcell : mat3)
        (encut : Q) (kvec : vec3) (n0 n1 n2 m0 m1 m2 : Z) (lgam : bool) :
  0 < n0 <= m0 -> 0 < n1 <= m1 -> 0 < n2 <= m2 ->
  let Gvec := vaspwfc_Gvec HSQDTM TPI Bcell encut kvec (n0, n1, n2)
                           lgam false in
  NoDup (map (wrap (m0, m1, m2)) Gvec) /\
  forallb (in_bounds (if lgam then (m0, m1, classic_div m2 2 + 1)
                      else (m0, m1, m2)))
          (map (wrap (m0, m1, m2)) Gvec) = true /\
  (forall ii jj kk, 0 <= ii < n0 -> 0 <= jj < n1 -> 0 <= kk < n2 ->
     wrap (n0, n1, n2) (centered n0 ii, centered n1 jj, centered n2 kk) =
     (ii, jj, kk)).
Proof.
  intros H0 H1 H2 Gvec. split; [|split].
  - now apply Gvec_wrap_NoDup.
  - now apply Gvec_wrap_in_bounds.
  - intros ii jj kk Hi Hj Hk. unfold wrap.
    now rewrite !mod_centered by assumption.
Qed.

Lemma wrapped_positions_witness :
  NoDup (map (wrap (6, 5, 7))
             (vaspwfc_Gvec HSQDTM_approx TPI_approx unit_cell (200 # 1)
                           k_gamma (5, 5, 5) true false)).
Proof.
  apply (wrapped_positions HSQDTM_approx TPI_approx unit_cell
           (200 # 1) k_gamma 5 5 5 6 5 7 true); lia.
Defined.

(** ** The origin and the padding of [elf] *)

Lemma range_head (n : Z) : 0 < n -> exists r, range n = 0 :: r.
Proof.
  intros Hn. unfold range.
  destruct (Z.to_nat n) as [|k] eqn:E; [lia|].
  simpl. eexists. reflexivity.
Qed.

Lemma centered_0 (n : Z) : 0 < n -> centered n 0 = 0.
Proof.
  intros Hn. unfold centered, classic_div.
  assert (0 <= n / 2) by (apply Z.div_pos; lia).
  destruct (0 <? n / 2 + 1) eqn:E; [reflexivity|]. apply Z.ltb_ge in E. lia.
Qed.

Lemma vaspwfc_kgrid_head (n0 n1 n2 : Z) (lgam : bool) :
  0 < n0 -> 0 < n1 -> 0 < n2 ->
  exists rest, vaspwfc_kgrid (n0, n1, n2) lgam = origin :: rest.
Proof.
  intros H0 H1 H2.
  assert (Hk : forall keep, keep origin = true ->
             exists rest,
               comprehension keep (freqs n0) (freqs n1) (freqs n2)
                             (n0, n1, n2) = origin :: rest).
  { intros keep Hko. unfold comprehension.
    destruct (range_head n0 H0) as [r0 E0].
    destruct (range_head n1 H1) as [r1 E1].
    destruct (range_head n2 H2) as [r2 E2].
    rewrite E2. cbn [flat_map]. rewrite E1. cbn [flat_map].
    rewrite E0. cbn [flat_map].
    unfold freqs. rewrite !item_map_range by lia.
    rewrite !centered_0 by assumption.
    change (0, 0, 0) with origin. rewrite Hko.
    eexists. rewrite <- !app_assoc. reflexivity. }
  unfold vaspwfc_kgrid. destruct lgam; apply Hk; reflexivity.
Qed.

Lemma below_cutoff_origin (HSQDTM TPI : Q) (Bcell : mat3) (encut : Q) :
  (0 < encut)%Q ->
  below_cutoff HSQDTM TPI Bcell encut k_gamma origin = true.
Proof.
  intros He. unfold below_cutoff, Qltb.
  assert (E : (KENERGY HSQDTM TPI Bcell k_gamma origin == 0)%Q).
  { destruct Bcell as [[[[b00 b01] b02] [[b10 b11] b12]] [[b20 b21] b22]].
    unfold KENERGY, norm_sq, dot_TPI_Bcell, add_vec, to_vec, k_gamma, origin.
    change (inject_Z 0) with 0%Q. ring. }
  rewrite E. apply negb_true_iff. apply not_true_is_false.
  rewrite Qle_bool_iff. intros Hle. apply (Qlt_not_le _ _ He Hle).
Qed.

(** X6. At the gamma point with a positive cutoff, the first G-vector of a
    k-point is the origin. *)
Theorem origin_is_first (HSQDTM TPI : Q) (Bcell : mat3) (encut : Q)
        (n0 n1 n2 : Z) (lgam force_Gamma : bool) :
  0 < n0 -> 0 < n1 -> 0 < n2 -> (0 < encut)%Q ->
  hd_error (vaspwfc_Gvec HSQDTM TPI Bcell encut k_gamma (n0, n1, n2)
                         lgam force_Gamma) = Some origin.
Proof.
  intros H0 H1 H2 He. unfold vaspwfc_Gvec, select.
  destruct (vaspwfc_kgrid_head n0 n1 n2 (if force_Gamma then true else lgam)
                               H0 H1 H2) as [rest ->].
  cbn [filter]. now rewrite below_cutoff_origin.
Qed.

Lemma origin_is_first_witness :
  hd_error (vaspwfc_Gvec HSQDTM_approx TPI_approx unit_cell (200 # 1) k_gamma
                         (5, 5, 5) true false) = Some origin.
Proof.
  apply (origin_is_first HSQDTM_approx TPI_approx unit_cell (200 # 1) 5 5 5
                         true false); solve [lia | reflexivity].
Defined.

Lemma filter_all {A : Type} (p : A -> bool) (l : list A) :
  (forall x, In x l -> p x = true) -> filter p l = l.
Proof.
  induction l as [|x l IH]; intros H; simpl; [reflexivity|].
  rewrite (H x) by now left. f_equal. apply IH. intros y Hy. apply H. now right.
Qed.

(** A list without repetition that starts with the origin has no other
    origin: dropping the first element drops the origin. *)
Lemma tl_drops_origin (l : list triple) :
  NoDup l -> hd_error l = Some origin ->
  tl l = filter (fun t => negb (is_origin t)) l.
Proof.
  intros Hnd Hhd. destruct l as [|x l]; [discriminate|].
  simpl in Hhd. inversion Hhd; subst. inversion Hnd as [|? ? Hx Hl]; subst.
  cbn [tl filter]. change (is_origin origin) with true. cbn [negb].
  symmetry. apply filter_all. intros t Ht. apply negb_true_iff.
  destruct (is_origin t) eqn:E; [|reflexivity].
  apply is_origin_spec in E. subst. contradiction.
Qed.

(** X7. In gamma storage, on a grid with odd dimensions and with a positive
    cutoff, the padding of [elf] (the G-vectors followed by the negation of
    all but the first) lists every G-vector of the full set exactly once;
    the full set has twice as many G-vectors as the stored half, less one. *)
Theorem elf_padding_is_full_set (HSQDTM TPI : Q) (Bcell : mat3) (encut : Q)
        (n0 n1 n2 : Z) :
  0 < n0 -> 0 < n1 -> 0 < n2 ->
  Z.odd n0 = true -> Z.odd n1 = true -> Z.odd n2 = true ->
  (0 < encut)%Q ->
  let half := vaspwfc_Gvec HSQDTM TPI Bcell encut k_gamma (n0, n1, n2)
                           true false in
  let full := vaspwfc_Gvec HSQDTM TPI Bcell encut k_gamma (n0, n1, n2)
                           false false in
  Permutation (Elf.padded half) full /\
  (length full = 2 * length half - 1)%nat.
Proof.
  intros H0 H1 H2 O0 O1 O2 He half full.
  assert (Hhd : hd_error half = Some origin).
  { unfold half, vaspwfc_Gvec, select.
    destruct (vaspwfc_kgrid_head n0 n1 n2 true H0 H1 H2) as [rest ->].
    cbn [filter]. now rewrite below_cutoff_origin. }
  assert (Hnd : NoDup half).
  { unfold half, vaspwfc_Gvec, select. apply NoDup_filter.
    apply vaspwfc_kgrid_NoDup. }
  assert (Hp : Permutation (Elf.padded half) full).
  { unfold Elf.padded. rewrite (tl_drops_origin half Hnd Hhd).
    change (Permutation (completed half) full).
    unfold half, full, vaspwfc_Gvec, select. rewrite vaspwfc_kgrid_half.
    apply completed_Permutation.
    - apply keep_half_z_neg.
    - apply below_cutoff_even.
    - apply full_grid_NoDup.
    - intros t. now apply full_grid_symmetric. }
  split; [exact Hp|].
  apply Permutation_length in Hp. rewrite <- Hp.
  unfold Elf.padded. rewrite length_app, length_map.
  destruct half as [|x l]; [discriminate|]. simpl. lia.
Qed.

Lemma elf_padding_is_full_set_witness :
  Permutation
    (Elf.padded (vaspwfc_Gvec HSQDTM_approx TPI_approx unit_cell (200 # 1)
                              k_gamma (5, 5, 5) true false))
    (vaspwfc_Gvec HSQDTM_approx TPI_approx unit_cell (200 # 1)
                  k_gamma (5, 5, 5) false false).
Proof.
  apply (elf_padding_is_full_set HSQDTM_approx TPI_approx unit_cell (200 # 1)
                                 5 5 5); solve [lia | reflexivity].
Defined.

(** ** The contract of [gvectors] *)

Lemma item1_inv {A : Type} (xs : list A) (i : Z) (x : A) (w w' : world) :
  item1 xs i w = (Ok x, w') ->
  w' = w /\ 0 <= i /\ nth_error xs (Z.to_nat i) = Some x.
Proof.
  unfold item1.
  destruct ((0 <=? i) && (i <? Z.of_nat (length xs))) eqn:E;
    [|unfold raise; discriminate].
  apply andb_true_iff in E. destruct E as [E _]. apply Z.leb_le in E.
  destruct (nth_error xs (Z.to_nat i)) as [y|]; unfold ret, raise;
    intros H; inversion H; subst; auto.
Qed.

(** X8. When [gvectors] returns with its consistency check, the k-point
    index is within bounds and the number of G-vectors is the plane-wave
    count stored for that k-point (half of it, rounded down, in spin-orbit
    storage); a k-point index out of bounds raises the assertion of line
    199. The call changes nothing. *)
Theorem gvectors_contract (HSQDTM TPI : Q) (self : vaspwfc) (ikpt : Z)
        (force_Gamma : bool) (w : world) :
  (forall g, fst (gvectors HSQDTM TPI self ikpt force_Gamma true w) = Ok g ->
     1 <= ikpt <= _nkpts self /\
     exists nplw,
       nth_error (_nplws self) (Z.to_nat (ikpt - 1)) = Some nplw /\
       Z.of_nat (length g) = (if _lsoc self then nplw / 2 else nplw)) /\
  (~ 1 <= ikpt <= _nkpts self ->
   forall check,
     fst (gvectors HSQDTM TPI self ikpt force_Gamma check w) =
     Raise (AssertionError "Invalid kpoint index!")) /\
  (forall check,
     snd (gvectors HSQDTM TPI self ikpt force_Gamma check w) = w).
Proof.
  split; [|split].
  - intros g. unfold gvectors, bind, py_assert.
    destruct ((1 <=? ikpt) && (ikpt <=? _nkpts self)) eqn:Ek;
      [|unfold raise; discriminate].
    apply andb_true_iff in Ek. rewrite !Z.leb_le in Ek. unfold ret at 1.
    destruct (item1 (_kvecs self) (ikpt - 1) w) as [[kvec|e] w1] eqn:Ekv;
      [|discriminate].
    apply item1_inv in Ekv. destruct Ekv as [-> _].
    destruct (item1 (_nplws self) (ikpt - 1) w) as [[nplw|e] w2] eqn:En;
      [|discriminate].
    apply item1_inv in En. destruct En as [-> [_ En]].
    destruct (_lsoc self).
    + destruct (_ =? classic_div nplw 2) eqn:E; [|unfold raise; discriminate].
      unfold ret. cbn [fst]. intros Hg. inversion Hg; subst.
      split; [lia|]. exists nplw. split; [exact En|]. now apply Z.eqb_eq.
    + destruct (_ =? nplw) eqn:E; [|unfold raise; discriminate].
      unfold ret. cbn [fst]. intros Hg. inversion Hg; subst.
      split; [lia|]. exists nplw. split; [exact En|]. now apply Z.eqb_eq.
  - intros Hk check. unfold gvectors, bind, py_assert.
    destruct ((1 <=? ikpt) && (ikpt <=? _nkpts self)) eqn:Ek; [|reflexivity].
    apply andb_true_iff in Ek. rewrite !Z.leb_le in Ek. lia.
  - intros check.
    destruct (gvectors_pure HSQDTM TPI self ikpt force_Gamma check) as [r Hr].
    now rewrite Hr.
Qed.

Lemma gvectors_contract_witness :
  1 <= 1 <= _nkpts Run.plain_wavecar /\
  exists nplw,
    nth_error (_nplws Run.plain_wavecar) (Z.to_nat (1 - 1)) = Some nplw /\
    Z.of_nat
      (length [(0, 0, 0); (1, 0, 0); (-1, 0, 0); (0, 1, 0); (0, -1, 0);
               (0, 0, 1); (0, 0, -1)]) =
    (if _lsoc Run.plain_wavecar then nplw / 2 else nplw).
Proof.
  apply (gvectors_contract HSQDTM_approx TPI_approx Run.plain_wavecar 1 false
                           Run.start).
  vm_compute. reflexivity.
Defined.

(** ** Checks come before effects *)

Lemma checkIndex_invalid (self : vaspwfc) (s k b : Z) :
  ~ valid_index self s k b ->
  exists msg, forall w,
      checkIndex self s k b w = (Raise (AssertionError msg), w).
Proof.
  intros Hv. unfold checkIndex, bind, py_assert.
  destruct ((1 <=? s) && (s <=? _nspin self)) eqn:Es;
    [|eexists; intros w; reflexivity].
  destruct ((1 <=? k) && (k <=? _nkpts self)) eqn:Ek;
    [|eexists; intros w; reflexivity].
  destruct ((1 <=? b) && (b <=? _nbands self)) eqn:Eb;
    [|eexists; intros w; reflexivity].
  exfalso. apply Hv. unfold valid_index.
  apply andb_true_iff in Es, Ek, Eb. rewrite !Z.leb_le in Es, Ek, Eb. lia.
Qed.

(** X9. With a spin, k-point or band index out of bounds, [whereRec],
    [readBandCoeff] and [wfc_r] raise [AssertionError] before anything
    else: the stream is not moved and an array passed as [gvec] is not
    overwritten. *)
Theorem invalid_index_changes_nothing {N : Numpy} (HSQDTM TPI : Q)
        (self : vaspwfc) (s k b : Z) (gvec : option loc)
        (Cg : option (list C)) (ngrid : option triple) (rescale : option R)
        (norm : bool) (w : world) :
  ~ valid_index self s k b ->
  exists msg,
    whereRec self s k b w = (Raise (AssertionError msg), w) /\
    readBandCoeff self s k b norm w = (Raise (AssertionError msg), w) /\
    wfc_r HSQDTM TPI self s k b gvec Cg ngrid rescale norm w =
    (Raise (AssertionError msg), w).
Proof.
  intros Hv. destruct (checkIndex_invalid self s k b Hv) as [msg Hc].
  exists msg. repeat split.
  - unfold whereRec. now rewrite (bind_raise _ _ _ _ _ (Hc w)).
  - unfold readBandCoeff. now rewrite (bind_raise _ _ _ _ _ (Hc w)).
  - unfold wfc_r. now rewrite (bind_raise _ _ _ _ _ (Hc w)).
Qed.

Lemma invalid_index_changes_nothing_witness :
  exists msg,
    whereRec Run.plain_wavecar 1 1 2 Run.start =
    (Raise (AssertionError msg), Run.start) /\
    readBandCoeff (N := Run.Gauss) Run.plain_wavecar 1 1 2 true Run.start =
    (Raise (AssertionError msg), Run.start) /\
    wfc_r (N := Run.Gauss) HSQDTM_approx TPI_approx Run.plain_wavecar 1 1 2
          None None None None true Run.start =
    (Raise (AssertionError msg), Run.start).
Proof.
  apply (invalid_index_changes_nothing (N := Run.Gauss) HSQDTM_approx
           TPI_approx Run.plain_wavecar 1 1 2 None None None None true
           Run.start).
  unfold valid_index. simpl. lia.
Defined.

(** X10. A target grid with a dimension below the minimum grid makes
    [wfc_r] raise the assertion of line 323 before the stream is moved or
    [gvec] overwritten; the minimum grid itself passes that check. *)
Theorem small_grid_changes_nothing {N : Numpy} (HSQDTM TPI : Q)
        (self : vaspwfc) (s k b : Z) (gvec : option loc)
        (Cg : option (list C)) (g0 g1 g2 n0 n1 n2 : Z) (rescale : option R)
        (norm : bool) (w : world) :
  valid_index self s k b ->
  _ngrid self = (n0, n1, n2) ->
  (g0 < n0 \/ g1 < n1 \/ g2 < n2) ->
  wfc_r HSQDTM TPI self s k b gvec Cg (Some (g0, g1, g2)) rescale norm w =
  (Raise (AssertionError "Minium FT grid size"), w) /\
  target_grid self (Some (n0, n1, n2)) w = (Ok (n0, n1, n2), w).
Proof.
  intros Hv Hn Hlt. split.
  - unfold wfc_r.
    rewrite (bind_ok _ _ _ _ _ (checkIndex_ok self _ _ _ w Hv)).
    assert (Ht : target_grid self (Some (g0, g1, g2)) w =
                 (Raise (AssertionError "Minium FT grid size"), w)).
    { unfold target_grid, bind, py_assert. rewrite Hn. unfold all_ge.
      replace ((g0 >=? n0) && (g1 >=? n1) && (g2 >=? n2)) with false;
        [reflexivity|].
      symmetry. apply not_true_is_false.
      rewrite !andb_true_iff, !Z.geb_le. lia. }
    now rewrite (bind_raise _ _ _ _ _ Ht).
  - apply target_grid_ok. unfold accepted_grid. split; [reflexivity|].
    rewrite Hn. unfold all_ge. rewrite !andb_true_iff, !Z.geb_le. lia.
Qed.

Lemma small_grid_changes_nothing_witness :
  wfc_r (N := Run.Gauss) HSQDTM_approx TPI_approx Run.plain_wavecar 1 1 1
        None None (Some (5, 4, 5)) None true Run.start =
  (Raise (AssertionError "Minium FT grid size"), Run.start).
Proof.
  apply (small_grid_changes_nothing (N := Run.Gauss) HSQDTM_approx TPI_approx
           Run.plain_wavecar 1 1 1 None None 5 4 5 5 5 5 None true Run.start);
    solve [unfold valid_index; simpl; lia | reflexivity | lia].
Defined.

(** ** Where the coefficients are placed *)

Lemma triple_eqb_spec (s t : triple) : triple_eqb s t = true <-> s = t.
Proof.
  destruct s as [[a b] c]. destruct t as [[x y] z]. unfold triple_eqb.
  rewrite !andb_true_iff, !Z.eqb_eq. split.
  - intros [[-> ->] ->]. reflexivity.
  - intros E. inversion E. auto.
Qed.

Lemma elem_setitem_same {C : Type} (a : ndarray C) (i : triple) (v : C) :
  elem (setitem a i v) i = v.
Proof.
  simpl. now rewrite (proj2 (triple_eqb_spec i i) eq_refl).
Qed.

Lemma elem_setitem_other {C : Type} (a : ndarray C) (i j : triple) (v : C) :
  j <> i -> elem (setitem a i v) j = elem a j.
Proof.
  intros Hne. simpl. destruct (triple_eqb j i) eqn:E; [|reflexivity].
  apply triple_eqb_spec in E. contradiction.
Qed.

(** Assigning in order at positions that do not repeat: each position
    holds its value, and the other elements are unchanged. *)
Lemma fold_setitem_spec {C : Type} (sh : triple) (ps : list (triple * C)) :
  forall acc : ndarray C,
    NoDup (map (fun iv => norm_idx sh (fst iv)) ps) ->
    let r := fold_left
               (fun acc (iv : triple * C) =>
                  setitem acc (norm_idx sh (fst iv)) (snd iv)) ps acc in
    shape r = shape acc /\
    (forall iv, In iv ps -> elem r (norm_idx sh (fst iv)) = snd iv) /\
    (forall j, ~ In j (map (fun iv => norm_idx sh (fst iv)) ps) ->
               elem r j = elem acc j).
Proof.
  induction ps as [|p ps IH]; intros acc Hnd; cbn [fold_left map].
  - split; [reflexivity|]. split; [intros iv [] | intros; reflexivity].
  - inversion Hnd as [|? ? Hp Hps]; subst.
    destruct (IH (setitem acc (norm_idx sh (fst p)) (snd p)) Hps)
      as [Hs [Hin Hout]].
    split; [exact Hs|]. split.
    + intros iv [<-|Hiv].
      * rewrite Hout by exact Hp. apply elem_setitem_same.
      * now apply Hin.
    + intros j Hj. rewrite Hout by (intros H; apply Hj; now right).
      apply elem_setitem_other. intros ->. apply Hj. now left.
Qed.

Lemma broadcast_same_length {C : Type} (vals : list C) (m : nat) :
  length vals = m -> broadcast vals m = vals.
Proof.
  intros <-. destruct vals as [|v [|v' vals]]; reflexivity.
Qed.

Lemma norm_idx_wrap (sh ng t : triple) :
  0 < fst (fst ng) -> 0 < snd (fst ng) -> 0 < snd ng ->
  norm_idx sh (wrap ng t) = wrap ng t.
Proof.
  destruct sh as [[s0 s1] s2]. destruct ng as [[m0 m1] m2].
  destruct t as [[a b] c]. simpl. intros H0 H1 H2.
  pose proof (mod_range a m0 H0). pose proof (mod_range b m1 H1).
  pose proof (mod_range c m2 H2).
  unfold py_index.
  destruct (mod_ a m0 <? 0) eqn:Ea; [apply Z.ltb_lt in Ea; lia|].
  destruct (mod_ b m1 <? 0) eqn:Eb; [apply Z.ltb_lt in Eb; lia|].
  destruct (mod_ c m2 <? 0) eqn:Ec; [apply Z.ltb_lt in Ec; lia|].
  reflexivity.
Qed.

Lemma map_fst_combine_eq {A B : Type} (l : list A) (l' : list B) :
  length l = length l' -> map fst (combine l l') = l.
Proof.
  revert l'. induction l as [|x l IH]; intros [|y l'] Hlen; simpl in *;
    try reflexivity; try discriminate.
  f_equal. apply IH. lia.
Qed.

Lemma nth_error_combine_Some {A B : Type} (l : list A) (l' : list B)
      (n : nat) (a : A) (b : B) :
  nth_error l n = Some a -> nth_error l' n = Some b ->
  nth_error (combine l l') n = Some (a, b).
Proof.
  revert l l'. induction n as [|n IH]; intros [|x l] [|y l'] Ha Hb;
    simpl in *; try discriminate.
  - now inversion Ha; inversion Hb.
  - now apply IH.
Qed.

(** The assignment of line 368 or 370 when the positions are wrapped
    G-vectors that do not repeat and fit the array, with as many
    coefficients as positions. *)
Lemma assign_points_wrapped {C : Type} (a : ndarray C) (ng : triple)
      (g : list triple) (cg : list C) :
  0 < fst (fst ng) -> 0 < snd (fst ng) -> 0 < snd ng ->
  length cg = length g ->
  forallb (in_bounds (shape a)) (map (wrap ng) g) = true ->
  NoDup (map (wrap ng) g) ->
  exists phi,
    assign_points a (map (wrap ng) g) cg = Ok phi /\
    shape phi = shape a /\
    (forall l t c, nth_error g l = Some t -> nth_error cg l = Some c ->
                   elem phi (wrap ng t) = c) /\
    (forall j, ~ In j (map (wrap ng) g) -> elem phi j = elem a j).
Proof.
  intros H0 H1 H2 Hlen Hb Hnd. unfold assign_points.
  rewrite length_map. unfold broadcastable.
  rewrite (proj2 (Nat.eqb_eq _ _) Hlen). cbn [orb negb]. rewrite Hb. cbn [negb].
  rewrite (broadcast_same_length cg _ Hlen).
  eexists. split; [reflexivity|].
  assert (Hfst : map (fun iv : triple * C => norm_idx (shape a) (fst iv))
                     (combine (map (wrap ng) g) cg) = map (wrap ng) g).
  { rewrite <- (map_map fst (norm_idx (shape a))).
    rewrite map_fst_combine_eq by (rewrite length_map; lia).
    rewrite map_map. apply map_ext. intros t. now apply norm_idx_wrap. }
  destruct (fold_setitem_spec (shape a) (combine (map (wrap ng) g) cg) a)
    as [Hs [Hin Hout]].
  { now rewrite Hfst. }
  split; [exact Hs|]. split.
  - intros l t c Ht Hc.
    assert (Hiv : In (wrap ng t, c) (combine (map (wrap ng) g) cg)).
    { apply (nth_error_In _ l). apply nth_error_combine_Some; [|exact Hc].
      now rewrite nth_error_map, Ht. }
    specialize (Hin _ Hiv). cbn [fst snd] in Hin.
    now rewrite norm_idx_wrap in Hin.
  - intros j Hj. apply Hout. now rewrite Hfst.
Qed.

Lemma gvectors_value (HSQDTM TPI : Q) (self : vaspwfc) (ikpt : Z)
      (force_Gamma check : bool) (w w' : world) (g : list triple) :
  gvectors HSQDTM TPI self ikpt force_Gamma check w = (Ok g, w') ->
  exists kvec,
    g = vaspwfc_Gvec HSQDTM TPI (_Bcell self) (_encut self) kvec
                     (_ngrid self) (_lgam self) force_Gamma.
Proof.
  unfold gvectors, bind, py_assert.
  destruct ((1 <=? ikpt) && (ikpt <=? _nkpts self));
    [|unfold raise; discriminate].
  unfold ret at 1.
  destruct (item1 (_kvecs self) (ikpt - 1) w) as [[kvec|e] w1];
    [|discriminate].
  intros E. exists kvec. revert E. destruct check.
  - destruct (item1 (_nplws self) (ikpt - 1) w1) as [[nplw|e] w2];
      [|discriminate].
    destruct (_lsoc self); destruct (_ =? _); unfold ret, raise;
      intros E; now inversion E.
  - unfold ret. intros E. now inversion E.
Qed.

Lemma accepted_grid_ge (self : vaspwfc) (ngrid : option triple)
      (n0 n1 n2 m0 m1 m2 : Z) :
  _ngrid self = (n0, n1, n2) ->
  accepted_grid self ngrid (m0, m1, m2) ->
  n0 <= m0 /\ n1 <= m1 /\ n2 <= m2.
Proof.
  intros Hn. unfold accepted_grid. rewrite Hn. destruct ngrid as [[[g0 g1] g2]|].
  - intros [E Hge]. inversion E; subst. unfold all_ge in Hge.
    rewrite !andb_true_iff, !Z.geb_le in Hge. lia.
  - intros E. inversion E; subst. lia.
Qed.

(** X11. Full storage, coefficients read from the file: when the file
    holds as many coefficients as the k-point has G-vectors, [wfc_r]
    returns the inverse transform of the scaled grid on which the
    coefficient number [l] is at the wrapped G-vector number [l] and every
    other point is zero, and leaves the stream where [readBandCoeff] left
    it. *)
Theorem full_mode_placement {N : Numpy} (HSQDTM TPI : Q) (self : vaspwfc)
        (s k b : Z) (ngrid : option triple) (n0 n1 n2 m0 m1 m2 : Z)
        (rescale : option R) (norm : bool) (w w1 : world)
        (g : list triple) (cg : list C) :
  _lsoc self = false ->
  _lgam self = false ->
  valid_index self s k b ->
  _ngrid self = (n0, n1, n2) ->
  0 < n0 -> 0 < n1 -> 0 < n2 ->
  accepted_grid self ngrid (m0, m1, m2) ->
  gvectors HSQDTM TPI self k false true w = (Ok g, w) ->
  readBandCoeff self s k b norm w = (Ok cg, w1) ->
  length cg = length g ->
  exists phi_k,
    wfc_r HSQDTM TPI self s k b None None ngrid rescale norm w =
    (Ok (Scalar (ifftn (scale phi_k
                              match rescale with
                              | Some r => r
                              | None => sqrt_prod (m0, m1, m2)
                              end))), w1) /\
    shape phi_k = (m0, m1, m2) /\
    (forall l t c, nth_error g l = Some t -> nth_error cg l = Some c ->
                   elem phi_k (wrap (m0, m1, m2) t) = c) /\
    (forall j, ~ In j (map (wrap (m0, m1, m2)) g) -> elem phi_k j = czero).
Proof.
  intros Hsoc Hgam Hv Hn H0 H1 H2 Hacc Hg Hrc Hlen.
  destruct (accepted_grid_ge self ngrid _ _ _ _ _ _ Hn Hacc) as [G0 [G1 G2]].
  destruct (gvectors_value _ _ _ _ _ _ _ _ _ Hg) as [kvec Eg].
  rewrite Hn, Hgam in Eg.
  assert (Hnd : NoDup (map (wrap (m0, m1, m2)) g)).
  { rewrite Eg. apply Gvec_wrap_NoDup; lia. }
  assert (Hb : forallb (in_bounds (shape (zeros (m0, m1, m2))))
                       (map (wrap (m0, m1, m2)) g) = true).
  { rewrite Eg.
    apply (Gvec_wrap_in_bounds HSQDTM TPI (_Bcell self) (_encut self) kvec
                               n0 n1 n2 m0 m1 m2 false); lia. }
  destruct (assign_points_wrapped (zeros (m0, m1, m2)) (m0, m1, m2) g cg)
    as [phi [Ha [Hs [Hin Hout]]]]; simpl; try lia; try assumption.
  exists phi. split; [|split; [exact Hs | split; [exact Hin | exact Hout]]].
  unfold wfc_r.
  rewrite (bind_ok _ _ _ _ _ (checkIndex_ok self _ _ _ w Hv)).
  rewrite (bind_ok _ _ _ _ _ (target_grid_ok self _ _ w Hacc)).
  rewrite (bind_ok _ _ _ _ _ Hg).
  rewrite Hsoc, Hgam. unfold scalar_branch, bind, ret, lift.
  rewrite Hrc, Ha, Hgam. reflexivity.
Qed.

Lemma full_mode_placement_witness :
  exists phi_k,
    wfc_r (N := Run.Gauss) HSQDTM_approx TPI_approx Run.plain_wavecar
          1 1 1 None None None None false Run.start =
    (Ok (Scalar (ifftn (scale phi_k (sqrt_prod (5, 5, 5))))),
     mk_world 224 []) /\
    shape phi_k = (5, 5, 5) /\
    (forall l t c,
        nth_error [(0, 0, 0); (1, 0, 0); (-1, 0, 0); (0, 1, 0); (0, -1, 0);
                   (0, 0, 1); (0, 0, -1)] l = Some t ->
        nth_error [(1, 0); (1, 0); (1, 0); (1, 0); (1, 0); (1, 0); (1, 0)] l
        = Some c ->
        elem phi_k (wrap (5, 5, 5) t) = c) /\
    (forall j,
        ~ In j (map (wrap (5, 5, 5))
                    [(0, 0, 0); (1, 0, 0); (-1, 0, 0); (0, 1, 0); (0, -1, 0);
                     (0, 0, 1); (0, 0, -1)]) ->
        elem phi_k j = czero).
Proof.
  apply (full_mode_placement (N := Run.Gauss) HSQDTM_approx TPI_approx
           Run.plain_wavecar 1 1 1 None 5 5 5 5 5 5 None false Run.start);
    solve [ reflexivity | lia | unfold valid_index; simpl; lia
          | vm_compute; reflexivity ].
Defined.

(** X12. Spin-orbit storage, coefficients read from the file: when the
    file holds twice as many coefficients as the k-point has G-vectors,
    [wfc_r] returns two fields; the first comes from the grid that holds
    the first half of the coefficients at the wrapped G-vectors, the second
    from a fresh grid that holds the second half, and both grids are zero
    elsewhere. *)
Theorem spinor_placement {N : Numpy} (HSQDTM TPI : Q) (self : vaspwfc)
        (s k b : Z) (ngrid : option triple) (n0 n1 n2 m0 m1 m2 : Z)
        (rescale : option R) (norm : bool) (w w1 : world)
        (g : list triple) (dump : list C) :
  _lsoc self = true ->
  _lgam self = false ->
  valid_index self s k b ->
  _ngrid self = (n0, n1, n2) ->
  0 < n0 -> 0 < n1 -> 0 < n2 ->
  accepted_grid self ngrid (m0, m1, m2) ->
  gvectors HSQDTM TPI self k false true w = (Ok g, w) ->
  readBandCoeff self s k b norm w = (Ok dump, w1) ->
  length dump = (2 * length g)%nat ->
  let normFac := match rescale with
                 | Some r => r
                 | None => sqrt_prod (m0, m1, m2)
                 end in
  exists up_k down_k,
    wfc_r HSQDTM TPI self s k b None None ngrid rescale norm w =
    (Ok (Spinor (scale (ifftn up_k) normFac) (scale (ifftn down_k) normFac)),
     w1) /\
    (forall l t c, nth_error g l = Some t -> nth_error dump l = Some c ->
                   elem up_k (wrap (m0, m1, m2) t) = c) /\
    (forall l t c, nth_error g l = Some t ->
                   nth_error dump (length g + l) = Some c ->
                   elem down_k (wrap (m0, m1, m2) t) = c) /\
    (forall j, ~ In j (map (wrap (m0, m1, m2)) g) ->
               elem up_k j = czero /\ elem down_k j = czero).
Proof.
  intros Hsoc Hgam Hv Hn H0 H1 H2 Hacc Hg Hrc Hlen normFac.
  destruct (accepted_grid_ge self ngrid _ _ _ _ _ _ Hn Hacc) as [G0 [G1 G2]].
  destruct (gvectors_value _ _ _ _ _ _ _ _ _ Hg) as [kvec Eg].
  rewrite Hn, Hgam in Eg.
  assert (Hnd : NoDup (map (wrap (m0, m1, m2)) g)).
  { rewrite Eg. apply Gvec_wrap_NoDup; lia. }
  assert (Hb : forallb (in_bounds (m0, m1, m2))
                       (map (wrap (m0, m1, m2)) g) = true).
  { rewrite Eg.
    apply (Gvec_wrap_in_bounds HSQDTM TPI (_Bcell self) (_encut self) kvec
                               n0 n1 n2 m0 m1 m2 false); lia. }
  assert (Hnplw : Z.to_nat (classic_div (Z.of_nat (length dump)) 2) = length g).
  { unfold classic_div. rewrite Hlen.
    replace (Z.of_nat (2 * length g)) with (Z.of_nat (length g) * 2) by lia.
    rewrite Z.div_mul by lia. lia. }
  destruct (assign_points_wrapped (zeros (m0, m1, m2)) (m0, m1, m2) g
                                  (firstn (length g) dump))
    as [up_k [Hau [Hsu [Hinu Houtu]]]]; simpl; try lia; try assumption.
  { rewrite length_firstn. lia. }
  destruct (assign_points_wrapped (zeros (shape up_k)) (m0, m1, m2) g
                                  (skipn (length g) dump))
    as [down_k [Had [Hsd [Hind Houtd]]]]; simpl; try lia; try assumption.
  { rewrite length_skipn. lia. }
  { now rewrite Hsu. }
  exists up_k, down_k. split; [|split; [|split]].
  - unfold wfc_r.
    rewrite (bind_ok _ _ _ _ _ (checkIndex_ok self _ _ _ w Hv)).
    rewrite (bind_ok _ _ _ _ _ (target_grid_ok self _ _ w Hacc)).
    rewrite (bind_ok _ _ _ _ _ Hg).
    rewrite Hsoc, Hgam. unfold spinor_branch, truth_value, bind, ret, lift.
    rewrite Hrc, Hnplw, Hau, Had. reflexivity.
  - intros l t c Ht Hc. apply (Hinu l t c Ht).
    rewrite nth_error_firstn.
    assert (Hl : (l < length g)%nat) by (apply nth_error_Some; congruence).
    now rewrite (proj2 (Nat.ltb_lt _ _) Hl).
  - intros l t c Ht Hc. apply (Hind l t c Ht). now rewrite nth_error_skipn.
  - intros j Hj. split; [now apply Houtu | now apply Houtd].
Qed.

Lemma spinor_placement_witness :
  exists up_k down_k,
    wfc_r (N := Run.Gauss) HSQDTM_approx TPI_approx Run.soc_wavecar
          1 1 1 None None None None false Run.start =
    (Ok (Spinor (scale (ifftn up_k) (sqrt_prod (3, 3, 3)))
                (scale (ifftn down_k) (sqrt_prod (3, 3, 3)))),
     mk_world 64 []) /\
    (forall l t c, nth_error [(0, 0, 0)] l = Some t ->
                   nth_error [(1, 0); (1, 0)] l = Some c ->
                   elem up_k (wrap (3, 3, 3) t) = c) /\
    (forall l t c, nth_error [(0, 0, 0)] l = Some t ->
                   nth_error [(1, 0); (1, 0)] (length [(0, 0, 0)] + l)
                   = Some c ->
                   elem down_k (wrap (3, 3, 3) t) = c) /\
    (forall j, ~ In j (map (wrap (3, 3, 3)) [(0, 0, 0)]) ->
               elem up_k j = czero /\ elem down_k j = czero).
Proof.
  apply (spinor_placement (N := Run.Gauss) HSQDTM_approx TPI_approx
           Run.soc_wavecar 1 1 1 None 3 3 3 3 3 3 None false Run.start);
    solve [ reflexivity | lia | unfold valid_index; simpl; lia
          | vm_compute; reflexivity ].
Defined.

(** ** Explicit arguments *)

(** X13. In full and gamma storage a call with explicit coefficients reads
    nothing: the stream stays where it was, and without an explicit [gvec]
    the call changes nothing at all. *)
Theorem explicit_coefficients_no_io {N : Numpy} (HSQDTM TPI : Q)
        (self : vaspwfc) (s k b : Z) (gvec : option loc) (cg : list C)
        (ngrid : option triple) (rescale : option R) (norm : bool)
        (w : world) :
  _lsoc self = false ->
  pos (snd (wfc_r HSQDTM TPI self s k b gvec (Some cg) ngrid rescale norm w))
  = pos w /\
  snd (wfc_r HSQDTM TPI self s k b None (Some cg) ngrid rescale norm w) = w.
Proof.
  intros Hsoc.
  assert (Hb : forall g ng phi_k nf w1,
             snd (scalar_branch self s k b g (Some cg) ng phi_k nf norm w1)
             = w1).
  { intros. unfold scalar_branch, bind, ret, lift.
    destruct (assign_points phi_k g cg); [destruct (_lgam self)|]; reflexivity. }
  unfold wfc_r.
  destruct (checkIndex_pure self s k b) as [[[]|e] Hi];
    [|rewrite !(bind_raise _ _ _ _ _ (Hi w)); auto].
  rewrite !(bind_ok _ _ _ _ _ (Hi w)).
  destruct (target_grid_pure self ngrid) as [[ng|e] Ht];
    [|rewrite !(bind_raise _ _ _ _ _ (Ht w)); auto].
  rewrite !(bind_ok _ _ _ _ _ (Ht w)). rewrite Hsoc. split.
  - destruct gvec as [l|].
    + unfold bind at 1. unfold load.
      destruct (nth_error (heap w) l) as [g|]; [|reflexivity].
      unfold bind, store. now rewrite Hb.
    + destruct (gvectors_pure HSQDTM TPI self k false true) as [[g|e] Hg].
      * rewrite (bind_ok _ _ _ _ _ (Hg w)). unfold bind, ret. now rewrite Hb.
      * now rewrite (bind_raise _ _ _ _ _ (Hg w)).
  - destruct (gvectors_pure HSQDTM TPI self k false true) as [[g|e] Hg].
    + rewrite (bind_ok _ _ _ _ _ (Hg w)). unfold bind, ret. now rewrite Hb.
    + now rewrite (bind_raise _ _ _ _ _ (Hg w)).
Qed.

Lemma explicit_coefficients_no_io_witness :
  snd (wfc_r (N := Run.Gauss) HSQDTM_approx TPI_approx Run.plain_wavecar
             1 1 1 None (Some [(1, 0); (2, 0); (3, 0)]) None None true
             (mk_world 17 [])) = mk_world 17 [].
Proof.
  apply (explicit_coefficients_no_io (N := Run.Gauss) HSQDTM_approx TPI_approx
           Run.plain_wavecar 1 1 1 None [(1, 0); (2, 0); (3, 0)] None None
           true (mk_world 17 [])).
  reflexivity.
Defined.

(** X14. In gamma storage the array has [ngrid[2]/2 + 1] planes: a call
    with explicit G-vectors, one of which wraps to a plane beyond them
    (such as the negated G-vectors that [elf] appends), raises
    [IndexError] and returns no field. *)
Theorem gamma_rejects_upper_planes {N : Numpy} (HSQDTM TPI : Q)
        (self : vaspwfc) (s k b : Z) (l : loc) (cg : list C)
        (ngrid : option triple) (m0 m1 m2 : Z) (rescale : option R)
        (norm : bool) (w : world) (g : list triple) (x y z : Z) :
  _lsoc self = false ->
  _lgam self = true ->
  valid_index self s k b ->
  accepted_grid self ngrid (m0, m1, m2) ->
  0 < m2 ->
  nth_error (heap w) l = Some g ->
  length cg = length g ->
  In (x, y, z) g ->
  m2 / 2 + 1 <= z mod m2 ->
  fst (wfc_r HSQDTM TPI self s k b (Some l) (Some cg) ngrid rescale norm w) =
  Raise IndexError.
Proof.
  intros Hsoc Hgam Hv Hacc Hm Hl Hlen Hin Hz. unfold wfc_r.
  rewrite (bind_ok _ _ _ _ _ (checkIndex_ok self _ _ _ w Hv)).
  rewrite (bind_ok _ _ _ _ _ (target_grid_ok self _ _ w Hacc)).
  assert (Hload : load l w = (Ok g, w)) by (unfold load; now rewrite Hl).
  rewrite (bind_ok _ _ _ _ _ Hload).
  rewrite Hsoc, Hgam. unfold bind at 1. unfold store.
  unfold scalar_branch, bind, ret, lift.
  assert (Ha : assign_points
                 (zeros (fst (fst (m0, m1, m2)), snd (fst (m0, m1, m2)),
                         classic_div (snd (m0, m1, m2)) 2 + 1))
                 (map (wrap (m0, m1, m2)) g) cg = Raise IndexError).
  { unfold assign_points. rewrite length_map. unfold broadcastable.
    rewrite (proj2 (Nat.eqb_eq _ _) Hlen). cbn [orb negb].
    replace (forallb _ _) with false; [reflexivity|].
    symmetry. apply not_true_is_false. intros Hall.
    rewrite forallb_forall in Hall.
    specialize (Hall (wrap (m0, m1, m2) (x, y, z)) (in_map _ _ _ Hin)).
    simpl in Hall. unfold index_ok, classic_div, mod_ in Hall.
    destruct (Z.eqb_spec m2 0); [lia|].
    rewrite !andb_true_iff in Hall. destruct Hall as [_ [_ Hlt]].
    apply Z.ltb_lt in Hlt. lia. }
  now rewrite Ha.
Qed.

Lemma gamma_rejects_upper_planes_witness :
  fst (wfc_r (N := Run.Gauss) HSQDTM_approx TPI_approx
             (mk_vaspwfc (_wfc Run.plain_wavecar) false true 56 1 complex64
                         1 1 (200 # 1)%Q unit_cell (5, 5, 5) [4] [k_gamma])
             1 1 1 (Some 0%nat) (Some [(1, 0); (2, 0)]) None None true
             (mk_world 0 [[(0, 0, 0); (0, 0, -1)]])) =
  Raise IndexError.
Proof.
  apply (gamma_rejects_upper_planes (N := Run.Gauss) HSQDTM_approx TPI_approx
           (mk_vaspwfc (_wfc Run.plain_wavecar) false true 56 1 complex64
                       1 1 (200 # 1)%Q unit_cell (5, 5, 5) [4] [k_gamma])
           1 1 1 0%nat [(1, 0); (2, 0)] None 5 5 5 None true
           (mk_world 0 [[(0, 0, 0); (0, 0, -1)]]) [(0, 0, 0); (0, 0, -1)]
           0 0 (-1));
    solve [ reflexivity | lia | unfold valid_index; simpl; lia
          | simpl; auto | vm_compute; discriminate ].
Defined.
